(** * Ghost sitemap generator: [core/frontend/services/sitemap/base-generator.js]

    A shallow embedding of [BaseSiteMapGenerator] and the proofs of the
    properties its specification states.

    Conventions of the embedding.
    - A JavaScript object used as a map ([nodeLookup], [nodeTimeLookup]) is
      the list of its own enumerable properties in the order in which
      [Object.keys] (and so lodash's [_.map]) visits them.
      Reading [o[k]] is modelled on the own properties; the class reads
      [nodeTimeLookup] only at the own keys of [nodeLookup], which are own
      keys of [nodeTimeLookup] in every state the class can reach
      ([lookups_keys_aligned]), so nothing inherited is ever read.  [_.map]
      treats the object as a plain one: a [length] property, if any, holds
      a node and not a number.
    - A record id is the property key it converts to, a string.
    - A timestamp is a number of milliseconds, as [Date.now()] returns it; a
      timestamp field of a record that is [undefined] or [null] is [None].
      An image field is a string, or [None] likewise.
    - [Date.now()] reads a clock that never runs backwards; every call is a
      reading of its own.
    - The functions the class calls and does not define ([xml], [urlFor],
      [path.basename], [getDeclarations], [transformReadyToAbsolute]) form
      the interface [Collaborators]; every theorem holds for each of its
      instances. *)

From Stdlib Require Import List ZArith NArith Bool String Ascii Lia.
From Stdlib Require Import Permutation Sorted DecimalString.
Import ListNotations.

Local Open Scope string_scope.
Local Open Scope list_scope.
Local Open Scope Z_scope.

(* ------------------------------------------------------------------ *)
(** * JavaScript values: truthiness and [||] *)

Class Truthy (A : Type) := truthy : A -> bool.

(** A number is falsy exactly when it is [0] (there is no NaN among the
    integers), a string exactly when it is empty, [undefined]/[null]
    always. *)
#[export] Instance Truthy_number : Truthy Z := fun z => negb (z =? 0).
#[export] Instance Truthy_string : Truthy string :=
  fun s => match s with EmptyString => false | String _ _ => true end.
#[export] Instance Truthy_nullable {A} `{Truthy A} : Truthy (option A) :=
  fun o => match o with Some a => truthy a | None => false end.

(** [a || b] *)
Definition jsOr {A} `{Truthy A} (a b : A) : A := if truthy a then a else b.

Infix "|||" := jsOr (at level 50, left associativity).

(** [v || d] where [v] is a number or [undefined]. *)
Definition orNumber (v : option Z) (d : Z) : Z :=
  match v with
  | Some z => z ||| d
  | None => d
  end.

(** [Array.prototype.slice(0, end)] for an integer [end]. *)
Definition slice0 {A} (l : list A) (e : Z) : list A :=
  let len := Z.of_nat (List.length l) in
  let k := if e <? 0 then Z.max (len + e) 0 else Z.min e len in
  firstn (Z.to_nat k) l.

(* ------------------------------------------------------------------ *)
(** * Ordinary objects as ordered property lists *)

Module JsObject.

(** The own properties, in [OrdinaryOwnPropertyKeys] order: the keys that
    are array indices in ascending numeric order, then the other string
    keys in the order of their creation. *)
Definition t (V : Type) := list (string * V).

Definition digit (c : ascii) : option N :=
  let n := N_of_ascii c in
  if ((48 <=? n) && (n <=? 57))%N then Some (n - 48)%N else None.

Fixpoint digits (s : string) (acc : N) : option N :=
  match s with
  | EmptyString => Some acc
  | String c s' =>
      match digit c with
      | Some d => digits s' (10 * acc + d)%N
      | None => None
      end
  end.

(** A key is an array index when it is the canonical decimal form of an
    integer below [2^32 - 1]. *)
Definition array_index (k : string) : option N :=
  match k with
  | EmptyString => None
  | String "0"%char EmptyString => Some 0%N
  | String "0"%char _ => None
  | _ =>
      match digits k 0%N with
      | Some n => if (n <? 4294967295)%N then Some n else None
      | None => None
      end
  end.

Definition keys {V} (o : t V) : list string := map fst o.
Definition values {V} (o : t V) : list V := map snd o.

(** [o[k]] on the own properties; [None] is [undefined]. *)
Fixpoint get {V} (k : string) (o : t V) : option V :=
  match o with
  | [] => None
  | (k', v) :: o' => if String.eqb k k' then Some v else get k o'
  end.

Definition has {V} (k : string) (o : t V) : bool :=
  existsb (String.eqb k) (keys o).

(** Assignment to a property that exists keeps its place. *)
Fixpoint replace {V} (k : string) (v : V) (o : t V) : t V :=
  match o with
  | [] => []
  | (k', v') :: o' =>
      if String.eqb k k' then (k, v) :: o' else (k', v') :: replace k v o'
  end.

(** A new array-index key [k] of value [n] goes before the first key that
    is not a smaller array index. *)
Fixpoint place {V} (k : string) (n : N) (v : V) (o : t V) : t V :=
  match o with
  | [] => [(k, v)]
  | (k', v') :: o' =>
      match array_index k' with
      | Some n' =>
          if (n' <? n)%N then (k', v') :: place k n v o'
          else (k, v) :: o
      | None => (k, v) :: o
      end
  end.

(** [o[k] = v].  Assigning to [__proto__] runs the accessor inherited from
    [Object.prototype] and creates no own property. *)
Definition set {V} (k : string) (v : V) (o : t V) : t V :=
  if String.eqb k "__proto__" then o
  else if has k o then replace k v o
  else match array_index k with
       | Some n => place k n v o
       | None => o ++ [(k, v)]
       end.

(** [delete o[k]]; deleting a missing property is not an error. *)
Definition delete {V} (k : string) (o : t V) : t V :=
  filter (fun p => negb (String.eqb k (fst p))) o.

End JsObject.

(* ------------------------------------------------------------------ *)
(** * lodash: [_.sortBy] *)

Module Lodash.
Section SortBy.
Context {A : Type} (key : A -> Z).

Fixpoint insert (x : A) (l : list A) : list A :=
  match l with
  | [] => [x]
  | y :: l' => if key x <=? key y then x :: l else y :: insert x l'
  end.

(** [_.sortBy(l, key)] on numeric keys: ascending by [key], elements
    of equal key in their original order (lodash documents the sort as
    stable); here by insertion from the right. *)
Definition sortBy (l : list A) : list A := fold_right insert [] l.
End SortBy.
End Lodash.

(* ------------------------------------------------------------------ *)
(** * The data handed to the [xml] serializer *)

(** An object with one key: [{name: content}], or the attribute block
    [{_attr: {...}}]. *)
Inductive XmlObj : Type :=
| Attr (attrs : list (string * string))
| Elem (name : string) (content : XmlContent)
with XmlContent : Type :=
| Text (s : string)
| Num (z : Z)
| Kids (kids : list XmlObj).

#[export] Instance Truthy_object : Truthy XmlObj := fun _ => true.

Definition XMLNS_DECLS : XmlObj :=
  Attr [("xmlns", "http://www.sitemaps.org/schemas/sitemap/0.9");
        ("xmlns:image", "http://www.google.com/schemas/sitemap-image/1.1")].

Definition elem_named (n : string) (x : XmlObj) : bool :=
  match x with
  | Elem n' _ => String.eqb n n'
  | Attr _ => false
  end.

(** The children called [n] of an element. *)
Definition children (n : string) (x : XmlObj) : list XmlObj :=
  match x with
  | Elem _ (Kids ks) => filter (elem_named n) ks
  | _ => []
  end.

(* ------------------------------------------------------------------ *)
(** * Records, the generator object and the world *)

Module Datum.
Record t := mk {
  id : string;
  updated_at : option Z;
  published_at : option Z;
  created_at : option Z;
  cover_image : option string;
  profile_image : option string;
  feature_image : option string
}.
End Datum.

Module Entry.
(** The elements of [nodesToProcess]. *)
Record t := mk { id : string; ts : Z; node : XmlObj }.
End Entry.

Record Generator := mkGenerator {
  nodeLookup : JsObject.t XmlObj;
  nodeTimeLookup : JsObject.t Z;
  siteMapContent : option string;
  lastModified : Z;
  maxNodes : Z
}.

(** The wall clock: [clock] is the last instant read, [elapse i] the time
    that passes before reading number [i]. *)
Record World := mkWorld {
  clock : Z;
  elapse : nat -> N;
  reads : nat
}.

Record Heap := mkHeap { this : Generator; world : World }.

Definition M (A : Type) : Type := Heap -> A * Heap.

Definition ret {A} (a : A) : M A := fun h => (a, h).
Definition bind {A B} (c : M A) (k : A -> M B) : M B :=
  fun h => k (fst (c h)) (snd (c h)).

Notation "x <- c1 ;; c2" := (bind c1 (fun x => c2))
  (at level 61, c1 at next level, right associativity).
Notation "c1 ;; c2" := (bind c1 (fun _ => c2))
  (at level 61, right associativity).

Definition getThis : M Generator := fun h => (this h, h).
Definition modifyThis (f : Generator -> Generator) : M unit :=
  fun h => (tt, mkHeap (f (this h)) (world h)).

(** The world after one more reading of the clock. *)
Definition tick (w : World) : World :=
  mkWorld (clock w + Z.of_N (elapse w (reads w))) (elapse w) (S (reads w)).

(** [Date.now()] *)
Definition Date_now : M Z :=
  fun h =>
    let w := tick (world h) in
    (clock w, mkHeap (this h) w).

Definition exec {A} (c : M A) (h : Heap) : Heap := snd (c h).
Definition eval {A} (c : M A) (h : Heap) : A := fst (c h).

(** Assignments to the fields of [this]. *)
Definition set_nodeLookup (o : JsObject.t XmlObj) (g : Generator) :=
  mkGenerator o (nodeTimeLookup g) (siteMapContent g) (lastModified g) (maxNodes g).
Definition set_nodeTimeLookup (o : JsObject.t Z) (g : Generator) :=
  mkGenerator (nodeLookup g) o (siteMapContent g) (lastModified g) (maxNodes g).
Definition set_siteMapContent (c : option string) (g : Generator) :=
  mkGenerator (nodeLookup g) (nodeTimeLookup g) c (lastModified g) (maxNodes g).
Definition set_lastModified (z : Z) (g : Generator) :=
  mkGenerator (nodeLookup g) (nodeTimeLookup g) (siteMapContent g) z (maxNodes g).

(* ------------------------------------------------------------------ *)
(** * [class BaseSiteMapGenerator] *)

(** The functions the class calls and does not define. *)
Class Collaborators := {
  (** [localUtils.getDeclarations()] *)
  getDeclarations : string;
  (** [xml(data)] *)
  xml : XmlObj -> string;
  (** [urlUtils.transformReadyToAbsolute] *)
  transformReadyToAbsolute : string -> string;
  (** [urlUtils.urlFor('image', {image: image}, true)]; [None] is a result
      that is [undefined] or [null]. *)
  urlFor : string -> option string;
  (** [path.basename] *)
  basename : string -> string
}.

Section BaseSiteMapGenerator.

Context `{Collaborators}.

Definition constructor : Generator :=
  mkGenerator [] [] None 0 50000.

(** The iteratee of the [_.map] over [nodeLookup]. *)
Definition toEntry (g : Generator) (p : string * XmlObj) : Entry.t :=
  let (id, node) := p in
  Entry.mk id (- (orNumber (JsObject.get id (nodeTimeLookup g)) 0)) node.

(** [nodesToProcess] after the [_.map] over [nodeLookup]. *)
Definition mappedEntries (g : Generator) : list Entry.t :=
  map (toEntry g) (nodeLookup g).

(** ... after the cut to [maxNodes]. *)
Definition limitedEntries (g : Generator) : list Entry.t :=
  if truthy (maxNodes g) then slice0 (mappedEntries g) (maxNodes g)
  else mappedEntries g.

(** ... after [_.sortBy(nodesToProcess, 'ts')]. *)
Definition sortedEntries (g : Generator) : list Entry.t :=
  Lodash.sortBy Entry.ts (limitedEntries g).

(** ... after [_.map(nodesToProcess, 'node')]. *)
Definition nodesToProcess (g : Generator) : list XmlObj :=
  map Entry.node (sortedEntries g).

(** [data] *)
Definition data (g : Generator) : XmlObj :=
  Elem "urlset" (Kids ([XMLNS_DECLS] ++ nodesToProcess g)).

Definition generateXmlFromNodes : M string :=
  g <- getThis ;;
  let sitemapXml := String.append getDeclarations (xml (data g)) in
  let sitemapXml := transformReadyToAbsolute sitemapXml in
  ret sitemapXml.

Definition getLastModifiedForDatum (datum : Datum.t) : M Z :=
  match Datum.updated_at datum ||| Datum.published_at datum
        ||| Datum.created_at datum with
  | Some modifiedDate =>
      if truthy modifiedDate then ret modifiedDate else Date_now
  | None => Date_now
  end.

Definition updateLastModified (datum : Datum.t) : M unit :=
  lastModified' <- getLastModifiedForDatum datum ;;
  g <- getThis ;;
  if lastModified g <? lastModified'
  then modifyThis (set_lastModified lastModified')
  else ret tt.

Definition validateImageUrl (imageUrl : option string) : bool :=
  negb (negb (truthy imageUrl)).

Definition createImageNodeFromDatum (datum : Datum.t) : option XmlObj :=
  let image := Datum.cover_image datum ||| Datum.profile_image datum
               ||| Datum.feature_image datum in
  match image with
  | None => None
  | Some image =>
      if negb (truthy image) then None
      else
        let imageUrl := urlFor image in
        if negb (validateImageUrl imageUrl) then None
        else
          match imageUrl with
          | None => None
          | Some imageUrl =>
              let imageEl := [Elem "image:loc" (Text imageUrl);
                              Elem "image:caption" (Text (basename imageUrl))] in
              Some (Elem "image:image" (Kids imageEl))
          end
  end.

Definition createUrlNodeFromDatum (url : string) (datum : Datum.t)
  : M XmlObj :=
  lastmod <- getLastModifiedForDatum datum ;;
  let node := [Elem "loc" (Text url); Elem "lastmod" (Num lastmod)] in
  let imgNode := createImageNodeFromDatum datum in
  ret (Elem "url" (Kids (match imgNode with
                         | Some imgNode => node ++ [imgNode]
                         | None => node
                         end))).

Definition updateLookups (datum : Datum.t) (node : XmlObj) : M unit :=
  modifyThis (fun g =>
    set_nodeLookup (JsObject.set (Datum.id datum) node (nodeLookup g)) g) ;;
  t <- getLastModifiedForDatum datum ;;
  modifyThis (fun g =>
    set_nodeTimeLookup (JsObject.set (Datum.id datum) t (nodeTimeLookup g)) g).

Definition removeFromLookups (datum : Datum.t) : M unit :=
  modifyThis (fun g =>
    set_nodeLookup (JsObject.delete (Datum.id datum) (nodeLookup g)) g) ;;
  modifyThis (fun g =>
    set_nodeTimeLookup (JsObject.delete (Datum.id datum) (nodeTimeLookup g)) g).

Definition addUrl (url : string) (datum : Datum.t) : M unit :=
  node <- createUrlNodeFromDatum url datum ;;
  if truthy node then
    updateLastModified datum ;;
    updateLookups datum node ;;
    modifyThis (set_siteMapContent None)
  else ret tt.

Definition removeUrl (url : string) (datum : Datum.t) : M unit :=
  removeFromLookups datum ;;
  modifyThis (set_siteMapContent None) ;;
  now <- Date_now ;;
  modifyThis (set_lastModified now).

Definition getXml : M string :=
  g <- getThis ;;
  match siteMapContent g with
  | Some cached =>
      if truthy cached then ret cached
      else
        content <- generateXmlFromNodes ;;
        modifyThis (set_siteMapContent (Some content)) ;;
        ret content
  | None =>
      content <- generateXmlFromNodes ;;
      modifyThis (set_siteMapContent (Some content)) ;;
      ret content
  end.

Definition reset : M unit :=
  modifyThis (set_nodeLookup []) ;;
  modifyThis (set_nodeTimeLookup []) ;;
  modifyThis (set_siteMapContent None).

(** The calls a client makes. *)
Inductive Op :=
| AddUrl (url : string) (datum : Datum.t)
| RemoveUrl (url : string) (datum : Datum.t)
| Reset
| GetXml.

Definition step (op : Op) : M unit :=
  match op with
  | AddUrl url datum => addUrl url datum
  | RemoveUrl url datum => removeUrl url datum
  | Reset => reset
  | GetXml => getXml ;; ret tt
  end.

Fixpoint run (ops : list Op) : M unit :=
  match ops with
  | [] => ret tt
  | op :: ops' => step op ;; run ops'
  end.

(** ** The words of the specification *)

(** "first non-empty of updated_at, published_at, created_at" *)
Definition firstNonEmpty (datum : Datum.t) : option Z :=
  match find truthy [Datum.updated_at datum; Datum.published_at datum;
                     Datum.created_at datum] with
  | Some found => found
  | None => None
  end.

(** "the first present of cover image, profile image, feature image" *)
Definition firstPresentImage (datum : Datum.t) : option string :=
  match find truthy [Datum.cover_image datum; Datum.profile_image datum;
                     Datum.feature_image datum] with
  | Some found => found
  | None => None
  end.

(** The image fragment for a resolved URL. *)
Definition imageFragment (imageUrl : string) : XmlObj :=
  Elem "image:image" (Kids [Elem "image:loc" (Text imageUrl);
                            Elem "image:caption" (Text (basename imageUrl))]).

(** The node [createUrlNodeFromDatum] builds once [lastmod] is known. *)
Definition urlNode (url : string) (lastmod : Z) (datum : Datum.t) : XmlObj :=
  Elem "url" (Kids ([Elem "loc" (Text url); Elem "lastmod" (Num lastmod)]
                    ++ match createImageNodeFromDatum datum with
                       | Some imgNode => [imgNode]
                       | None => []
                       end)).

(** The text [generateXmlFromNodes] returns when [this] is [g]. *)
Definition document (g : Generator) : string :=
  transformReadyToAbsolute (String.append getDeclarations (xml (data g))).

(** What [getLastModifiedForDatum] returns in world [w], and the world it
    leaves. *)
Definition stampOf (datum : Datum.t) (w : World) : Z :=
  match firstNonEmpty datum with
  | Some z => z
  | None => clock (tick w)
  end.

Definition stampAt (datum : Datum.t) (w : World) : World :=
  match firstNonEmpty datum with
  | Some _ => w
  | None => tick w
  end.

(** The stored last-modified instant of a record id, as the renderer
    reads it. *)
Definition storedTime (g : Generator) (id : string) : Z :=
  orNumber (JsObject.get id (nodeTimeLookup g)) 0.

(** The heap of a freshly constructed generator. *)
Definition fresh (w : World) : Heap := mkHeap constructor w.

Definition addAll (adds : list (string * Datum.t)) : M unit :=
  run (map (fun a => AddUrl (fst a) (snd a)) adds).

(** [stamped adds id]: the last record added under [id] carried a
    non-empty timestamp field. *)
Fixpoint stampedFrom (adds : list (string * Datum.t)) (s : string -> bool)
  : string -> bool :=
  match adds with
  | [] => s
  | (_, datum) :: adds' =>
      stampedFrom adds'
        (fun id => if String.eqb id (Datum.id datum)
                   then truthy (firstNonEmpty datum) else s id)
  end.

Definition stamped (adds : list (string * Datum.t)) : string -> bool :=
  stampedFrom adds (fun _ => false).

(** [bounded s g]: the stored time of every id that [s] marks is at most
    [lastModified]; [__proto__] is no key. *)
Definition bounded (s : string -> bool) (g : Generator) : Prop :=
  JsObject.get "__proto__" (nodeTimeLookup g) = None /\
  forall id t, s id = true ->
               JsObject.get id (nodeTimeLookup g) = Some t ->
               t <= lastModified g.

End BaseSiteMapGenerator.

(* ------------------------------------------------------------------ *)
(** * A concrete configuration, for the examples *)

Module Sample.

(** The last non-empty segment of a [/]-separated path. *)
Fixpoint lastSegment (s : string) (cur last : string) : string :=
  match s with
  | EmptyString => match cur with EmptyString => last | _ => cur end
  | String c s' =>
      if Ascii.eqb c "/"%char
      then lastSegment s' EmptyString
             (match cur with EmptyString => last | _ => cur end)
      else lastSegment s' (String.append cur (String c EmptyString)) last
  end.

Fixpoint render (x : XmlObj) : string :=
  match x with
  | Attr _ => EmptyString
  | Elem n c =>
      String.append "<" (String.append n (String.append ">"
        (String.append (renderContent c)
           (String.append "</" (String.append n ">")))))
  end
with renderContent (c : XmlContent) : string :=
  match c with
  | Text s => s
  | Num z => DecimalString.NilZero.string_of_int (Z.to_int z)
  | Kids ks =>
      (fix all (l : list XmlObj) : string :=
         match l with
         | [] => EmptyString
         | k :: l' => String.append (render k) (all l')
         end) ks
  end.

#[export] Instance collaborators : Collaborators := {|
  getDeclarations := "<?xml version='1.0' encoding='UTF-8'?>";
  xml := render;
  transformReadyToAbsolute := fun s => s;
  urlFor := fun image =>
    Some (String.append "https://site/content/images/" image);
  basename := fun s => lastSegment s EmptyString EmptyString
|}.

Definition record (id : string) (updated : option Z) : Datum.t :=
  Datum.mk id updated None None None None None.

Definition recordWithCover (id : string) (updated : option Z)
    (cover : string) : Datum.t :=
  Datum.mk id updated None None (Some cover) None None.

(** A clock at instant 1000 of which every later reading finds that one
    more millisecond has passed, except the first two. *)
Definition ticking : World :=
  mkWorld 1000 (fun i => if (i <? 2)%nat then 0%N else 1%N) 0.

(** A clock that stands still. *)
Definition frozen : World := mkWorld 1000 (fun _ => 0%N) 0.

Definition small (maxNodes : Z) : Generator :=
  mkGenerator
    [("a", Elem "url" (Kids [Elem "loc" (Text "/a"); Elem "lastmod" (Num 10)]));
     ("b", Elem "url" (Kids [Elem "loc" (Text "/b"); Elem "lastmod" (Num 30)]));
     ("c", Elem "url" (Kids [Elem "loc" (Text "/c"); Elem "lastmod" (Num 20)]))]
    [("a", 10); ("b", 30); ("c", 20)]
    None 30 maxNodes.

End Sample.

(* ------------------------------------------------------------------ *)
(** * Facts about objects *)

Section ObjectFacts.

Context {V : Type}.
Implicit Types (o : JsObject.t V) (k : string) (v : V).

Lemma has_get k o :
  JsObject.has k o = match JsObject.get k o with Some _ => true | None => false end.
Proof.
  unfold JsObject.has, JsObject.keys.
  induction o as [|[k' v'] o IH]; simpl; [reflexivity|].
  destruct (String.eqb k k'); simpl; auto.
Qed.

Lemma keys_replace k v o : JsObject.keys (JsObject.replace k v o) = JsObject.keys o.
Proof.
  induction o as [|[k' v'] o IH]; simpl; [reflexivity|].
  destruct (String.eqb k k') eqn:E; simpl.
  - apply String.eqb_eq in E. now subst.
  - now rewrite IH.
Qed.

Lemma get_replace_same k v o :
  JsObject.has k o = true -> JsObject.get k (JsObject.replace k v o) = Some v.
Proof.
  unfold JsObject.has, JsObject.keys.
  induction o as [|[k' v'] o IH]; simpl; [discriminate|].
  destruct (String.eqb k k') eqn:E; simpl.
  - now rewrite String.eqb_refl.
  - rewrite E. exact IH.
Qed.

Lemma get_replace_other k k' v o :
  k' <> k -> JsObject.get k' (JsObject.replace k v o) = JsObject.get k' o.
Proof.
  intros Hne. induction o as [|[k0 v0] o IH]; simpl; [reflexivity|].
  destruct (String.eqb k k0) eqn:E; simpl.
  - apply String.eqb_eq in E. subst k0.
    apply String.eqb_neq in Hne. now rewrite Hne.
  - now rewrite IH.
Qed.

Lemma get_place_same k n v o :
  JsObject.has k o = false -> JsObject.get k (JsObject.place k n v o) = Some v.
Proof.
  unfold JsObject.has, JsObject.keys.
  induction o as [|[k' v'] o IH]; simpl.
  - now rewrite String.eqb_refl.
  - destruct (String.eqb k k') eqn:E; simpl; [discriminate|].
    intros Hno.
    destruct (JsObject.array_index k') as [n'|];
      [destruct (n' <? n)%N|]; simpl;
      rewrite ?String.eqb_refl, ?E; auto.
Qed.

Lemma get_place_other k k' n v o :
  k' <> k -> JsObject.get k' (JsObject.place k n v o) = JsObject.get k' o.
Proof.
  intros Hne. apply String.eqb_neq in Hne.
  induction o as [|[k0 v0] o IH]; simpl.
  - now rewrite Hne.
  - destruct (JsObject.array_index k0) as [n'|];
      [destruct (n' <? n)%N|]; simpl; rewrite ?Hne, ?IH; reflexivity.
Qed.

Lemma get_app_other k k' v o :
  k' <> k -> JsObject.get k' (o ++ [(k, v)]) = JsObject.get k' o.
Proof.
  intros Hne. apply String.eqb_neq in Hne.
  induction o as [|[k0 v0] o IH]; simpl.
  - now rewrite Hne.
  - now rewrite IH.
Qed.

Lemma get_app_same k v o :
  JsObject.has k o = false -> JsObject.get k (o ++ [(k, v)]) = Some v.
Proof.
  unfold JsObject.has, JsObject.keys.
  induction o as [|[k' v'] o IH]; simpl.
  - now rewrite String.eqb_refl.
  - destruct (String.eqb k k'); simpl; [discriminate | exact IH].
Qed.

(** Reading back what was assigned. *)
Lemma get_set_same k v o :
  k <> "__proto__" -> JsObject.get k (JsObject.set k v o) = Some v.
Proof.
  intros Hne. apply String.eqb_neq in Hne.
  unfold JsObject.set. rewrite Hne.
  destruct (JsObject.has k o) eqn:Hh.
  - now apply get_replace_same.
  - destruct (JsObject.array_index k).
    + now apply get_place_same.
    + now apply get_app_same.
Qed.

(** An assignment leaves the other properties alone. *)
Lemma get_set_other k k' v o :
  k' <> k -> JsObject.get k' (JsObject.set k v o) = JsObject.get k' o.
Proof.
  intros Hne. unfold JsObject.set.
  destruct (String.eqb k "__proto__"); [reflexivity|].
  destruct (JsObject.has k o).
  - now apply get_replace_other.
  - destruct (JsObject.array_index k).
    + now apply get_place_other.
    + now apply get_app_other.
Qed.

Lemma get_set_proto v o :
  JsObject.set "__proto__" v o = o.
Proof. reflexivity. Qed.

Lemma get_delete_same k o : JsObject.get k (JsObject.delete k o) = None.
Proof.
  unfold JsObject.delete.
  induction o as [|[k' v'] o IH]; simpl; [reflexivity|].
  destruct (String.eqb k k') eqn:E; simpl; [exact IH|].
  now rewrite E.
Qed.

Lemma get_delete_other k k' o :
  k' <> k -> JsObject.get k' (JsObject.delete k o) = JsObject.get k' o.
Proof.
  intros Hne. unfold JsObject.delete.
  induction o as [|[k0 v0] o IH]; simpl; [reflexivity|].
  destruct (String.eqb k k0) eqn:E; simpl.
  - apply String.eqb_eq in E. subst k0.
    apply String.eqb_neq in Hne. now rewrite Hne.
  - now rewrite IH.
Qed.

(** Deleting a property that is not there changes nothing. *)
Lemma delete_absent k o :
  JsObject.has k o = false -> JsObject.delete k o = o.
Proof.
  unfold JsObject.has, JsObject.keys, JsObject.delete.
  induction o as [|[k' v'] o IH]; simpl; [reflexivity|].
  destruct (String.eqb k k'); simpl; [discriminate|].
  intros Hno. now rewrite IH.
Qed.

Lemma Forall_replace (P : string * V -> Prop) k v o :
  P (k, v) -> Forall P o -> Forall P (JsObject.replace k v o).
Proof.
  intros Hp. induction 1 as [|[k' v'] o Hx Ho IH]; simpl; [constructor|].
  destruct (String.eqb k k'); constructor; auto.
Qed.

Lemma Forall_place (P : string * V -> Prop) k n v o :
  P (k, v) -> Forall P o -> Forall P (JsObject.place k n v o).
Proof.
  intros Hp. induction 1 as [|[k' v'] o Hx Ho IH]; simpl; [repeat constructor; auto|].
  destruct (JsObject.array_index k') as [n'|];
    [destruct (n' <? n)%N|]; repeat constructor; auto.
Qed.

Lemma Forall_set (P : string * V -> Prop) k v o :
  P (k, v) -> Forall P o -> Forall P (JsObject.set k v o).
Proof.
  intros Hp Ho. unfold JsObject.set.
  destruct (String.eqb k "__proto__"); [exact Ho|].
  destruct (JsObject.has k o).
  - now apply Forall_replace.
  - destruct (JsObject.array_index k).
    + now apply Forall_place.
    + apply Forall_app. split; [exact Ho | repeat constructor; exact Hp].
Qed.

Lemma Forall_delete (P : string * V -> Prop) k o :
  Forall P o -> Forall P (JsObject.delete k o).
Proof.
  unfold JsObject.delete. induction 1 as [|x o Hx Ho IH]; simpl; [constructor|].
  destruct (negb (String.eqb k (fst x))); [constructor|]; auto.
Qed.

End ObjectFacts.

(** Two objects with the same keys in the same order still have the same
    keys in the same order after the same assignment or deletion. *)
Section ObjectKeys.

Context {V W : Type}.

Lemma keys_place_congr k n (v : V) (w : W) o1 o2 :
  JsObject.keys o1 = JsObject.keys o2 ->
  JsObject.keys (JsObject.place k n v o1) = JsObject.keys (JsObject.place k n w o2).
Proof.
  revert o2. induction o1 as [|[k1 v1] o1 IH]; intros [|[k2 v2] o2]; simpl;
    try discriminate; [reflexivity|].
  intros Hk. injection Hk as Hk1 Hk. subst k2.
  destruct (JsObject.array_index k1) as [n'|];
    [destruct (n' <? n)%N|]; simpl; f_equal; auto; now f_equal.
Qed.

Lemma keys_set_congr k (v : V) (w : W) o1 o2 :
  JsObject.keys o1 = JsObject.keys o2 ->
  JsObject.keys (JsObject.set k v o1) = JsObject.keys (JsObject.set k w o2).
Proof.
  intros Hk. unfold JsObject.set, JsObject.has. rewrite <- Hk.
  destruct (String.eqb k "__proto__"); [exact Hk|].
  destruct (existsb (String.eqb k) (JsObject.keys o1)).
  - now rewrite !keys_replace.
  - destruct (JsObject.array_index k).
    + now apply keys_place_congr.
    + unfold JsObject.keys in *. rewrite !map_app, Hk. reflexivity.
Qed.

Lemma keys_delete_congr k (o1 : JsObject.t V) (o2 : JsObject.t W) :
  JsObject.keys o1 = JsObject.keys o2 ->
  JsObject.keys (JsObject.delete k o1) = JsObject.keys (JsObject.delete k o2).
Proof.
  unfold JsObject.delete.
  revert o2. induction o1 as [|[k1 v1] o1 IH]; intros [|[k2 v2] o2]; simpl;
    try discriminate; [reflexivity|].
  intros Hk. injection Hk as Hk1 Hk. subst k2.
  destruct (String.eqb k k1); simpl; [|f_equal]; auto.
Qed.

End ObjectKeys.

(* ------------------------------------------------------------------ *)
(** * Facts about [_.sortBy] and [slice] *)

Section SortFacts.

Context {A : Type} (key : A -> Z).

Let ascending (a b : A) : Prop := key a <= key b.
Let rising (a b : A) : Prop := key a < key b.

Lemma insert_perm x l : Permutation (Lodash.insert key x l) (x :: l).
Proof.
  induction l as [|y l IH]; simpl; [reflexivity|].
  destruct (key x <=? key y); [reflexivity|].
  rewrite IH. apply perm_swap.
Qed.

Lemma sortBy_perm l : Permutation (Lodash.sortBy key l) l.
Proof.
  induction l as [|x l IH]; simpl; [reflexivity|].
  rewrite insert_perm. now constructor.
Qed.

Lemma sortBy_length l : List.length (Lodash.sortBy key l) = List.length l.
Proof. apply Permutation_length, sortBy_perm. Qed.

Lemma insert_sorted x l :
  StronglySorted ascending l -> StronglySorted ascending (Lodash.insert key x l).
Proof.
  induction 1 as [|y l Hl IH Hy]; simpl; [repeat constructor|].
  destruct (key x <=? key y) eqn:E.
  - apply Z.leb_le in E. constructor; [now constructor|].
    constructor; [exact E|].
    eapply Forall_impl; [|exact Hy]. unfold ascending. intros; lia.
  - apply Z.leb_gt in E. constructor; [exact IH|].
    eapply Permutation_Forall; [symmetry; apply insert_perm|].
    constructor; [unfold ascending; lia | exact Hy].
Qed.

Lemma sortBy_sorted l : StronglySorted ascending (Lodash.sortBy key l).
Proof.
  induction l as [|x l IH]; simpl; [constructor | now apply insert_sorted].
Qed.

(** Without equal keys, ascending is strictly ascending. *)
Lemma sorted_strict l :
  NoDup (map key l) -> StronglySorted ascending l -> StronglySorted rising l.
Proof.
  intros Hnd. induction 1 as [|x l Hl IH Hx]; [constructor|].
  simpl in Hnd. apply NoDup_cons_iff in Hnd as [Hnot Hnd].
  constructor; [auto|].
  rewrite Forall_forall in *. intros y Hy.
  specialize (Hx y Hy). unfold ascending in Hx. unfold rising.
  assert (key x <> key y) by (intros E; apply Hnot; rewrite E; now apply in_map).
  lia.
Qed.

Lemma sortBy_strict l :
  NoDup (map key l) -> StronglySorted rising (Lodash.sortBy key l).
Proof.
  intros Hnd. apply sorted_strict; [|apply sortBy_sorted].
  eapply Permutation_NoDup; [|exact Hnd].
  apply Permutation_map. symmetry. apply sortBy_perm.
Qed.

Lemma insert_filter (k : Z) x l :
  filter (fun a => key a =? k) (Lodash.insert key x l)
  = filter (fun a => key a =? k) (x :: l).
Proof.
  induction l as [|y l IH]; simpl; [reflexivity|].
  destruct (key x <=? key y) eqn:E; simpl; [reflexivity|].
  apply Z.leb_gt in E. simpl in IH. rewrite IH.
  destruct (key x =? k) eqn:Ex, (key y =? k) eqn:Ey; try reflexivity.
  apply Z.eqb_eq in Ex, Ey. lia.
Qed.

(** Equal keys keep the order they came in. *)
Lemma sortBy_stable (k : Z) l :
  filter (fun a => key a =? k) (Lodash.sortBy key l)
  = filter (fun a => key a =? k) l.
Proof.
  induction l as [|x l IH]; simpl; [reflexivity|].
  rewrite insert_filter. simpl. now rewrite IH.
Qed.

End SortFacts.

Section SliceFacts.

Context {A : Type}.

Lemma slice0_all (l : list A) e :
  Z.of_nat (List.length l) <= e -> slice0 l e = l.
Proof.
  intros Hle. unfold slice0.
  assert ((e <? 0) = false) as -> by (apply Z.ltb_ge; lia).
  rewrite Z.min_r by lia. rewrite Nat2Z.id. apply firstn_all.
Qed.

Lemma slice0_cut (l : list A) e :
  0 <= e <= Z.of_nat (List.length l) -> slice0 l e = firstn (Z.to_nat e) l.
Proof.
  intros Hle. unfold slice0.
  assert ((e <? 0) = false) as -> by (apply Z.ltb_ge; lia).
  now rewrite Z.min_l by lia.
Qed.

Lemma slice0_prefix (l : list A) e : exists rest, l = slice0 l e ++ rest.
Proof.
  unfold slice0. eexists. symmetry. apply firstn_skipn.
Qed.

Lemma filter_all (f : A -> bool) (l : list A) :
  Forall (fun x => f x = true) l -> filter f l = l.
Proof.
  induction 1 as [|x l Hx Hl IH]; simpl; [reflexivity|].
  now rewrite Hx, IH.
Qed.

Lemma firstn_Forall (P : A -> Prop) n (l : list A) :
  Forall P l -> Forall P (firstn n l).
Proof.
  intros Hl. rewrite <- (firstn_skipn n l) in Hl.
  now apply Forall_app in Hl.
Qed.

(** A sorted list stays sorted for a relation that is implied on its
    elements. *)
Lemma StronglySorted_on (P : A -> Prop) (R R' : A -> A -> Prop) (l : list A) :
  (forall a b, P a -> P b -> R a b -> R' a b) ->
  Forall P l -> StronglySorted R l -> StronglySorted R' l.
Proof.
  intros Himp Hp. induction 1 as [|x l Hl IH Hx]; [constructor|].
  apply Forall_cons_iff in Hp as [Hpx Hp].
  constructor; [auto|].
  rewrite Forall_forall in *. auto.
Qed.

End SliceFacts.

(* ------------------------------------------------------------------ *)
(** * The methods, one by one *)

Section Methods.

Context `{Collaborators}.

Lemma heap_eta h : mkHeap (this h) (world h) = h.
Proof. now destruct h. Qed.

(** A reading of the clock is not before the previous one. *)
Lemma Date_now_later h :
  clock (world h) <= eval Date_now h /\
  clock (world (exec Date_now h)) = eval Date_now h /\
  this (exec Date_now h) = this h.
Proof. unfold eval, exec, Date_now; simpl. repeat split. lia. Qed.

Lemma getLastModifiedForDatum_stamped datum z h :
  firstNonEmpty datum = Some z -> getLastModifiedForDatum datum h = (z, h).
Proof.
  destruct datum as [i [[|u|u]|] [[|p|p]|] [[|c|c]|] ci pi fi]; cbv;
    intros E; try discriminate; injection E as <-; reflexivity.
Qed.

Lemma getLastModifiedForDatum_unstamped datum h :
  firstNonEmpty datum = None -> getLastModifiedForDatum datum h = Date_now h.
Proof.
  destruct datum as [i [[|u|u]|] [[|p|p]|] [[|c|c]|] ci pi fi];
    unfold firstNonEmpty; simpl; intros E; try discriminate; reflexivity.
Qed.


Lemma getLastModifiedForDatum_eq datum h :
  getLastModifiedForDatum datum h
  = (stampOf datum (world h), mkHeap (this h) (stampAt datum (world h))).
Proof.
  unfold stampOf, stampAt. destruct (firstNonEmpty datum) as [z|] eqn:E.
  - rewrite (getLastModifiedForDatum_stamped _ _ _ E). now rewrite heap_eta.
  - now rewrite (getLastModifiedForDatum_unstamped _ _ E).
Qed.

Lemma createUrlNodeFromDatum_eq url datum h :
  createUrlNodeFromDatum url datum h
  = (urlNode url (stampOf datum (world h)) datum,
     mkHeap (this h) (stampAt datum (world h))).
Proof.
  unfold createUrlNodeFromDatum, bind, ret, urlNode.
  rewrite getLastModifiedForDatum_eq. simpl.
  now destruct (createImageNodeFromDatum datum).
Qed.

Lemma updateLastModified_eq datum h :
  updateLastModified datum h
  = (tt, mkHeap (set_lastModified
                   (Z.max (lastModified (this h)) (stampOf datum (world h)))
                   (this h))
                (stampAt datum (world h))).
Proof.
  unfold updateLastModified, bind, getThis.
  rewrite getLastModifiedForDatum_eq. simpl.
  destruct (lastModified (this h) <? stampOf datum (world h)) eqn:E.
  - apply Z.ltb_lt in E. unfold modifyThis. simpl. now rewrite Z.max_r by lia.
  - apply Z.ltb_ge in E. unfold ret. rewrite Z.max_l by lia.
    destruct h as [[] ?]; reflexivity.
Qed.

Lemma updateLookups_eq datum node h :
  updateLookups datum node h
  = (tt, mkHeap (mkGenerator
                   (JsObject.set (Datum.id datum) node (nodeLookup (this h)))
                   (JsObject.set (Datum.id datum) (stampOf datum (world h))
                      (nodeTimeLookup (this h)))
                   (siteMapContent (this h)) (lastModified (this h))
                   (maxNodes (this h)))
                (stampAt datum (world h))).
Proof.
  unfold updateLookups, bind, modifyThis.
  rewrite getLastModifiedForDatum_eq. reflexivity.
Qed.

Lemma addUrl_eq url datum h :
  let w1 := stampAt datum (world h) in
  let w2 := stampAt datum w1 in
  addUrl url datum h
  = (tt, mkHeap (mkGenerator
                   (JsObject.set (Datum.id datum)
                      (urlNode url (stampOf datum (world h)) datum)
                      (nodeLookup (this h)))
                   (JsObject.set (Datum.id datum) (stampOf datum w2)
                      (nodeTimeLookup (this h)))
                   None
                   (Z.max (lastModified (this h)) (stampOf datum w1))
                   (maxNodes (this h)))
                (stampAt datum w2)).
Proof.
  unfold addUrl, bind.
  rewrite createUrlNodeFromDatum_eq. cbn [fst snd truthy Truthy_object].
  rewrite updateLastModified_eq. cbn [fst snd].
  rewrite updateLookups_eq. reflexivity.
Qed.

Lemma removeUrl_eq url datum h :
  removeUrl url datum h
  = (tt, mkHeap (mkGenerator
                   (JsObject.delete (Datum.id datum) (nodeLookup (this h)))
                   (JsObject.delete (Datum.id datum) (nodeTimeLookup (this h)))
                   None
                   (clock (tick (world h)))
                   (maxNodes (this h)))
                (tick (world h))).
Proof. reflexivity. Qed.

Lemma reset_eq h :
  reset h = (tt, mkHeap (mkGenerator [] [] None (lastModified (this h))
                           (maxNodes (this h)))
                        (world h)).
Proof. reflexivity. Qed.


Lemma generateXmlFromNodes_eq h :
  generateXmlFromNodes h = (document (this h), h).
Proof. reflexivity. Qed.

Lemma getXml_eq h :
  getXml h
  = if truthy (siteMapContent (this h))
    then (match siteMapContent (this h) with Some c => c | None => "" end, h)
    else (document (this h),
          mkHeap (set_siteMapContent (Some (document (this h))) (this h))
                 (world h)).
Proof.
  unfold getXml, bind, getThis; simpl.
  destruct (siteMapContent (this h)) as [[|a c]|]; reflexivity.
Qed.

(** The rendering does not read the cache. *)
Lemma document_ignores_cache c g :
  document (set_siteMapContent c g) = document g.
Proof. reflexivity. Qed.

Lemma exec_run_cons op ops h :
  exec (run (op :: ops)) h = exec (run ops) (exec (step op) h).
Proof. reflexivity. Qed.

(** What holds of a heap and is kept by every call holds after every
    sequence of calls. *)
Lemma run_invariant (P : Heap -> Prop) :
  (forall op h, P h -> P (exec (step op) h)) ->
  forall ops h, P h -> P (exec (run ops) h).
Proof.
  intros Hstep. induction ops as [|op ops IH]; intros h Hh; [exact Hh|].
  rewrite exec_run_cons. apply IH, Hstep, Hh.
Qed.

Lemma step_exec op h :
  exec (step op) h =
  match op with
  | AddUrl url datum => exec (addUrl url datum) h
  | RemoveUrl url datum => exec (removeUrl url datum) h
  | Reset => exec reset h
  | GetXml => exec getXml h
  end.
Proof. destruct op; reflexivity. Qed.

Lemma createImageNodeFromDatum_cases datum :
  createImageNodeFromDatum datum = None \/
  exists imageUrl, createImageNodeFromDatum datum = Some (imageFragment imageUrl).
Proof.
  unfold createImageNodeFromDatum.
  destruct (_ ||| _ ||| _) as [image|]; [|now left].
  destruct (negb (truthy image)); [now left|].
  unfold validateImageUrl.
  destruct (urlFor image) as [imageUrl|]; [|now left].
  destruct (negb (negb (negb (truthy (Some imageUrl))))); [now left|].
  right. now exists imageUrl.
Qed.

(** Every node that is stored is a [url] element. *)
Lemma urlNode_is_url url t datum : elem_named "url" (urlNode url t datum) = true.
Proof. reflexivity. Qed.

Lemma keys_in_step op h :
  JsObject.keys (nodeLookup (this h)) = JsObject.keys (nodeTimeLookup (this h)) ->
  JsObject.keys (nodeLookup (this (exec (step op) h)))
  = JsObject.keys (nodeTimeLookup (this (exec (step op) h))).
Proof.
  intros Hk. rewrite step_exec. destruct op as [url datum|url datum| |]; unfold exec.
  - rewrite addUrl_eq. simpl. now apply keys_set_congr.
  - rewrite removeUrl_eq. simpl. now apply keys_delete_congr.
  - reflexivity.
  - rewrite getXml_eq. destruct (truthy _); exact Hk.
Qed.

Lemma cache_in_step op h :
  (truthy (siteMapContent (this h)) = true ->
   siteMapContent (this h) = Some (document (this h))) ->
  truthy (siteMapContent (this (exec (step op) h))) = true ->
  siteMapContent (this (exec (step op) h))
  = Some (document (this (exec (step op) h))).
Proof.
  intros Hc. rewrite step_exec. destruct op as [url datum|url datum| |]; unfold exec.
  - rewrite addUrl_eq. discriminate.
  - rewrite removeUrl_eq. discriminate.
  - rewrite reset_eq. discriminate.
  - rewrite getXml_eq. destruct (truthy (siteMapContent (this h))) eqn:E.
    + intros _. now apply Hc.
    + reflexivity.
Qed.

Lemma urls_in_step op h :
  Forall (fun p => elem_named "url" (snd p) = true) (nodeLookup (this h)) ->
  Forall (fun p => elem_named "url" (snd p) = true)
         (nodeLookup (this (exec (step op) h))).
Proof.
  intros Hu. rewrite step_exec. destruct op as [url datum|url datum| |]; unfold exec.
  - rewrite addUrl_eq. simpl. now apply Forall_set.
  - rewrite removeUrl_eq. simpl. now apply Forall_delete.
  - constructor.
  - rewrite getXml_eq. destruct (truthy _); exact Hu.
Qed.

Lemma maxNodes_in_step op h :
  maxNodes (this (exec (step op) h)) = maxNodes (this h).
Proof.
  rewrite step_exec. destruct op as [url datum|url datum| |]; unfold exec.
  - now rewrite addUrl_eq.
  - reflexivity.
  - reflexivity.
  - rewrite getXml_eq. now destruct (truthy _).
Qed.

End Methods.

(* ------------------------------------------------------------------ *)
(** * The properties of the specification *)

Section Specification.

Context `{Collaborators}.

(** After any sequence of calls, a cache that is set holds the document
    of the current lookups. *)
Lemma cache_is_current ops w :
  let g := this (exec (run ops) (fresh w)) in
  truthy (siteMapContent g) = true -> siteMapContent g = Some (document g).
Proof.
  apply (run_invariant (fun h =>
    truthy (siteMapContent (this h)) = true ->
    siteMapContent (this h) = Some (document (this h)))).
  - apply cache_in_step.
  - discriminate.
Qed.

(** [maxNodes] stays what the constructor made it. *)
Lemma maxNodes_constant ops w :
  maxNodes (this (exec (run ops) (fresh w))) = 50000.
Proof.
  apply (run_invariant (fun h => maxNodes (this h) = 50000)).
  - intros op h Hh. now rewrite maxNodes_in_step.
  - reflexivity.
Qed.

(** Every stored node is a [url] element. *)
Lemma nodes_are_urls ops w :
  Forall (fun p => elem_named "url" (snd p) = true)
         (nodeLookup (this (exec (run ops) (fresh w)))).
Proof.
  apply (run_invariant (fun h =>
    Forall (fun p => elem_named "url" (snd p) = true) (nodeLookup (this h)))).
  - apply urls_in_step.
  - constructor.
Qed.

(** The two lookups list the same keys in the same order. *)
Lemma lookups_keys_aligned ops w :
  JsObject.keys (nodeLookup (this (exec (run ops) (fresh w))))
  = JsObject.keys (nodeTimeLookup (this (exec (run ops) (fresh w)))).
Proof.
  apply (run_invariant (fun h =>
    JsObject.keys (nodeLookup (this h)) = JsObject.keys (nodeTimeLookup (this h)))).
  - apply keys_in_step.
  - reflexivity.
Qed.

(** C1.  Two calls of [getXml] in a row return the same string, which is
    the one the first call left in [siteMapContent], and the second call
    changes nothing; a call of [getXml] that follows an [addUrl] or a
    [removeUrl] returns what [generateXmlFromNodes] computes from the
    lookups as they are then. *)
Theorem getXml_cache h :
  (let first := getXml h in
   let second := getXml (snd first) in
   fst second = fst first /\
   siteMapContent (this (snd first)) = Some (fst first) /\
   snd second = snd first) /\
  (forall url datum,
     let h' := exec (addUrl url datum) h in
     eval getXml h' = eval generateXmlFromNodes h') /\
  (forall url datum,
     let h' := exec (removeUrl url datum) h in
     eval getXml h' = eval generateXmlFromNodes h').
Proof.
  split; [|split].
  - cbv zeta. rewrite (getXml_eq h).
    destruct (truthy (siteMapContent (this h))) eqn:E.
    + cbn [fst snd]. rewrite getXml_eq, E. cbn [fst snd].
      destruct (siteMapContent (this h)); [auto | discriminate].
    + cbn [fst snd]. rewrite getXml_eq. cbn [this world].
      rewrite document_ignores_cache.
      change (siteMapContent (set_siteMapContent (Some (document (this h)))
                                (this h)))
        with (Some (document (this h))).
      destruct (truthy (Some (document (this h)))); cbn [fst snd]; auto.
  - intros url datum h'. subst h'. unfold exec, eval.
    rewrite addUrl_eq. cbn [snd]. now rewrite getXml_eq.
  - intros url datum h'. subst h'. unfold exec, eval.
    rewrite removeUrl_eq. cbn [snd]. now rewrite getXml_eq.
Qed.

(** C4.  After every sequence of [addUrl], [removeUrl], [reset] (and
    [getXml]) calls on a new generator, a key is a key of [nodeLookup]
    exactly when it is a key of [nodeTimeLookup]. *)
Theorem lookups_same_keys ops w k :
  let g := this (exec (run ops) (fresh w)) in
  In k (JsObject.keys (nodeLookup g)) <-> In k (JsObject.keys (nodeTimeLookup g)).
Proof.
  cbv zeta. now rewrite lookups_keys_aligned.
Qed.

(** C8.  [removeUrl] leaves no entry for the record id in either lookup
    and keeps every other entry; when the id has no entry the lookups
    stay as they are; the cache is cleared and [lastModified] is the
    instant the clock shows at that reading, which is not before the
    call. *)
Theorem removeUrl_effect url datum h :
  let id := Datum.id datum in
  let g := this h in
  let g' := this (exec (removeUrl url datum) h) in
  JsObject.get id (nodeLookup g') = None /\
  JsObject.get id (nodeTimeLookup g') = None /\
  (forall k, k <> id ->
     JsObject.get k (nodeLookup g') = JsObject.get k (nodeLookup g) /\
     JsObject.get k (nodeTimeLookup g') = JsObject.get k (nodeTimeLookup g)) /\
  (JsObject.has id (nodeLookup g) = false -> nodeLookup g' = nodeLookup g) /\
  (JsObject.has id (nodeTimeLookup g) = false ->
     nodeTimeLookup g' = nodeTimeLookup g) /\
  siteMapContent g' = None /\
  lastModified g' = eval Date_now h /\
  lastModified g' = clock (world (exec (removeUrl url datum) h)) /\
  clock (world h) <= lastModified g'.
Proof.
  unfold exec, eval. rewrite removeUrl_eq. cbn [snd this world nodeLookup
    nodeTimeLookup siteMapContent lastModified].
  repeat split.
  - apply get_delete_same.
  - apply get_delete_same.
  - now apply get_delete_other.
  - now apply get_delete_other.
  - apply delete_absent.
  - apply delete_absent.
  - unfold tick; simpl; lia.
Qed.

(** C9.  [reset] empties both lookups and the cache and leaves
    [lastModified] and [maxNodes] (and the clock) as they were. *)
Theorem reset_effect h :
  let g := this h in
  let g' := this (exec reset h) in
  nodeLookup g' = [] /\
  nodeTimeLookup g' = [] /\
  siteMapContent g' = None /\
  lastModified g' = lastModified g /\
  maxNodes g' = maxNodes g /\
  world (exec reset h) = world h.
Proof. repeat split. Qed.

(** C10.  [getXml] changes no field of the generator but
    [siteMapContent], and does not read the clock. *)
Theorem getXml_frame h :
  let g := this h in
  let g' := this (exec getXml h) in
  nodeLookup g' = nodeLookup g /\
  nodeTimeLookup g' = nodeTimeLookup g /\
  lastModified g' = lastModified g /\
  maxNodes g' = maxNodes g /\
  world (exec getXml h) = world h.
Proof.
  unfold exec. rewrite getXml_eq.
  destruct (truthy (siteMapContent (this h))); repeat split.
Qed.


(** The entries carry the negated stored time of their id. *)
Lemma mappedEntries_ts g :
  Forall (fun e => Entry.ts e = - storedTime g (Entry.id e)) (mappedEntries g).
Proof.
  unfold mappedEntries. apply Forall_map, Forall_forall.
  now intros [id node] _.
Qed.

Lemma mappedEntries_pairs g :
  map (fun e => (Entry.id e, Entry.node e)) (mappedEntries g) = nodeLookup g.
Proof.
  unfold mappedEntries. rewrite map_map. rewrite <- (map_id (nodeLookup g)) at 2.
  apply map_ext. now intros [id node].
Qed.

Lemma mappedEntries_nodes g :
  map Entry.node (mappedEntries g) = JsObject.values (nodeLookup g).
Proof.
  unfold mappedEntries, JsObject.values. rewrite map_map.
  apply map_ext. now intros [id node].
Qed.

Lemma mappedEntries_times g :
  map Entry.ts (mappedEntries g)
  = map Z.opp (map (storedTime g) (JsObject.keys (nodeLookup g))).
Proof.
  unfold mappedEntries, JsObject.keys. rewrite !map_map.
  apply map_ext. now intros [id node].
Qed.

(** The cut keeps a prefix of the entries. *)
Lemma limitedEntries_prefix g :
  exists rest, mappedEntries g = limitedEntries g ++ rest.
Proof.
  unfold limitedEntries. destruct (truthy (maxNodes g)).
  - apply slice0_prefix.
  - exists []. now rewrite app_nil_r.
Qed.

Lemma limitedEntries_all g :
  Z.of_nat (List.length (nodeLookup g)) <= maxNodes g ->
  limitedEntries g = mappedEntries g.
Proof.
  intros Hle. unfold limitedEntries. destruct (truthy (maxNodes g)); [|reflexivity].
  apply slice0_all. unfold mappedEntries. now rewrite length_map.
Qed.

Lemma limitedEntries_cut g :
  0 < maxNodes g < Z.of_nat (List.length (nodeLookup g)) ->
  limitedEntries g = firstn (Z.to_nat (maxNodes g)) (mappedEntries g).
Proof.
  intros Hlt. unfold limitedEntries.
  assert (truthy (maxNodes g) = true) as ->.
  { unfold truthy, Truthy_number. apply negb_true_iff, Z.eqb_neq. lia. }
  apply slice0_cut. unfold mappedEntries. rewrite length_map. lia.
Qed.

(** Stored times that differ pairwise come out newest first, cut or
    not. *)
Lemma sortedEntries_descending g :
  NoDup (map (storedTime g) (JsObject.keys (nodeLookup g))) ->
  StronglySorted
    (fun a b => storedTime g (Entry.id b) < storedTime g (Entry.id a))
    (sortedEntries g).
Proof.
  intros Hnd.
  destruct (limitedEntries_prefix g) as [rest Hrest].
  assert (Hts : Forall (fun e => Entry.ts e = - storedTime g (Entry.id e))
                  (limitedEntries g)).
  { pose proof (mappedEntries_ts g) as Hall. rewrite Hrest in Hall.
    now apply Forall_app in Hall. }
  assert (Hnd' : NoDup (map Entry.ts (limitedEntries g))).
  { apply (NoDup_app_remove_r _ (map Entry.ts rest)).
    rewrite <- map_app, <- Hrest, mappedEntries_times.
    apply Finite.Injective_map_NoDup; [|exact Hnd].
    intros a b Hab. lia. }
  unfold sortedEntries.
  apply StronglySorted_on
    with (P := fun e => Entry.ts e = - storedTime g (Entry.id e))
         (R := fun a b => Entry.ts a < Entry.ts b).
  - intros a b Ha Hb. lia.
  - eapply Permutation_Forall; [|exact Hts]. symmetry. apply sortBy_perm.
  - now apply sortBy_strict.
Qed.

(** After any sequence of calls, [getXml] returns the document of the
    current lookups, from the cache or not. *)
Lemma getXml_is_document ops w :
  let h := exec (run ops) (fresh w) in
  eval getXml h = document (this h).
Proof.
  pose proof (cache_is_current ops w) as Hcache. cbv zeta in *.
  unfold eval. rewrite getXml_eq.
  destruct (truthy (siteMapContent _)) eqn:E; [|reflexivity].
  cbn [fst]. now rewrite (Hcache eq_refl).
Qed.

(** C2.  In every state that calls on a new generator lead to: when the
    stored times of the records differ pairwise and there are at most
    [maxNodes] records, the document [getXml] returns is the serialization
    of the namespace block followed by the nodes of all the records, in
    strictly descending order of their stored times. *)
Theorem render_newest_first ops w :
  let h := exec (run ops) (fresh w) in
  let g := this h in
  NoDup (map (storedTime g) (JsObject.keys (nodeLookup g))) ->
  Z.of_nat (List.length (nodeLookup g)) <= maxNodes g ->
  eval getXml h
  = transformReadyToAbsolute
      (String.append getDeclarations
         (xml (Elem "urlset"
                 (Kids (XMLNS_DECLS :: map Entry.node (sortedEntries g)))))) /\
  Permutation (map (fun e => (Entry.id e, Entry.node e)) (sortedEntries g))
              (nodeLookup g) /\
  StronglySorted
    (fun a b => storedTime g (Entry.id b) < storedTime g (Entry.id a))
    (sortedEntries g).
Proof.
  intros h g Hnd Hle. split; [apply getXml_is_document|]. split.
  - rewrite <- mappedEntries_pairs. apply Permutation_map.
    unfold sortedEntries. rewrite (limitedEntries_all g Hle).
    apply sortBy_perm.
  - now apply sortedEntries_descending.
Qed.

(** C3.  For every state of the generator with more than [maxNodes]
    records ([maxNodes] positive, as the constructor's 50000 is): the
    entries that are sorted are the first [maxNodes] entries in the
    iteration order of [nodeLookup], so the nodes of the document are the
    nodes of these records, and the document has exactly [maxNodes] [url]
    elements. *)
Theorem render_cap g w :
  0 < maxNodes g ->
  maxNodes g < Z.of_nat (List.length (nodeLookup g)) ->
  Forall (fun p => elem_named "url" (snd p) = true) (nodeLookup g) ->
  let n := Z.to_nat (maxNodes g) in
  eval generateXmlFromNodes (mkHeap g w)
  = transformReadyToAbsolute (String.append getDeclarations (xml (data g))) /\
  sortedEntries g = Lodash.sortBy Entry.ts (firstn n (mappedEntries g)) /\
  Permutation (nodesToProcess g) (firstn n (JsObject.values (nodeLookup g))) /\
  children "url" (data g) = nodesToProcess g /\
  List.length (children "url" (data g)) = n.
Proof.
  intros Hpos Hlt Hurl n.
  assert (Hsorted : sortedEntries g
                    = Lodash.sortBy Entry.ts (firstn n (mappedEntries g))).
  { unfold sortedEntries. now rewrite limitedEntries_cut by lia. }
  assert (Hperm : Permutation (nodesToProcess g)
                    (firstn n (JsObject.values (nodeLookup g)))).
  { unfold nodesToProcess. rewrite Hsorted.
    rewrite <- mappedEntries_nodes, firstn_map.
    apply Permutation_map, sortBy_perm. }
  assert (Hkids : children "url" (data g) = nodesToProcess g).
  { unfold data, children. simpl. apply filter_all.
    eapply Permutation_Forall; [symmetry; exact Hperm|].
    apply firstn_Forall. unfold JsObject.values. now apply Forall_map. }
  repeat split; auto.
  rewrite Hkids, (Permutation_length Hperm), length_firstn.
  unfold JsObject.values. rewrite length_map. lia.
Qed.

(** ** The high-water mark *)

Lemma stampOf_stamped datum z w :
  firstNonEmpty datum = Some z -> stampOf datum w = z.
Proof. unfold stampOf. now intros ->. Qed.

Lemma addUrl_bounded s url datum h :
  bounded s (this h) ->
  bounded (fun id => if String.eqb id (Datum.id datum)
                     then truthy (firstNonEmpty datum) else s id)
          (this (exec (addUrl url datum) h)).
Proof.
  intros [Hproto Hb]. unfold exec, bounded. rewrite addUrl_eq. simpl.
  destruct (String.eqb (Datum.id datum) "__proto__") eqn:Ep.
  - (* the assignment creates no property *)
    apply String.eqb_eq in Ep. rewrite Ep, !get_set_proto. split; [exact Hproto|].
    intros id t Hs Hget.
    destruct (String.eqb id "__proto__") eqn:Ei.
    + apply String.eqb_eq in Ei. subst id. congruence.
    + specialize (Hb id t Hs Hget). lia.
  - apply String.eqb_neq in Ep. split.
    + rewrite get_set_other by congruence. exact Hproto.
    + intros id t Hs Hget.
      destruct (String.eqb id (Datum.id datum)) eqn:Ei.
      * apply String.eqb_eq in Ei. subst id.
        rewrite get_set_same in Hget by exact Ep. injection Hget as <-.
        destruct (firstNonEmpty datum) as [z|] eqn:Ez; [|discriminate].
        rewrite !(stampOf_stamped _ _ _ Ez). lia.
      * apply String.eqb_neq in Ei.
        rewrite get_set_other in Hget by exact Ei.
        specialize (Hb id t Hs Hget). lia.
Qed.

Lemma exec_addAll_cons url datum adds h :
  exec (addAll ((url, datum) :: adds)) h
  = exec (addAll adds) (exec (addUrl url datum) h).
Proof. reflexivity. Qed.

Lemma addAll_bounded adds :
  forall s h, bounded s (this h) ->
              bounded (stampedFrom adds s) (this (exec (addAll adds) h)).
Proof.
  induction adds as [|[url datum] adds IH]; intros s h Hb; [exact Hb|].
  rewrite exec_addAll_cons. simpl. apply IH. now apply addUrl_bounded.
Qed.

Lemma addUrl_monotone url datum h :
  lastModified (this h) <= lastModified (this (exec (addUrl url datum) h)).
Proof. unfold exec. rewrite addUrl_eq. simpl. lia. Qed.

Lemma addAll_monotone adds :
  forall h, lastModified (this h) <= lastModified (this (exec (addAll adds) h)).
Proof.
  induction adds as [|[url datum] adds IH]; intros h; [reflexivity|].
  rewrite exec_addAll_cons.
  etransitivity; [apply (addUrl_monotone url datum)|apply IH].
Qed.

Lemma exec_addAll_app adds more :
  forall h, exec (addAll (adds ++ more)) h
            = exec (addAll more) (exec (addAll adds) h).
Proof.
  induction adds as [|[url datum] adds IH]; intros h; [reflexivity|].
  simpl app. rewrite !exec_addAll_cons. apply IH.
Qed.

(** C5, as the code has it.  After every sequence of [addUrl] calls on a
    new generator, [lastModified] is at least the stored time of every
    id whose last added record had a non-empty timestamp field; and
    [lastModified] never decreases as further [addUrl] calls follow. *)
Theorem lastModified_bounds_stamped adds w :
  let g := this (exec (addAll adds) (fresh w)) in
  (forall id t, stamped adds id = true ->
                JsObject.get id (nodeTimeLookup g) = Some t ->
                t <= lastModified g) /\
  (forall more,
     lastModified g
     <= lastModified (this (exec (addAll (adds ++ more)) (fresh w)))).
Proof.
  split.
  - apply (addAll_bounded adds (fun _ => false) (fresh w)).
    split; [reflexivity | discriminate].
  - intros more. rewrite exec_addAll_app. apply addAll_monotone.
Qed.

(** C6.  [getLastModifiedForDatum] returns the first non-empty of
    [updated_at], [published_at], [created_at] and reads no clock; for a
    record without any, the [lastmod] of the node that [addUrl] builds is
    the clock's reading at that moment, not before the instant at which
    [addUrl] was called and not after the instant at which it returns,
    and this node is the one stored under the record's id. *)
Theorem lastModified_of_datum url datum h :
  (forall z, firstNonEmpty datum = Some z ->
             getLastModifiedForDatum datum h = (z, h)) /\
  (firstNonEmpty datum = None ->
   let node := eval (createUrlNodeFromDatum url datum) h in
   let h' := exec (addUrl url datum) h in
   exists t,
     children "lastmod" node = [Elem "lastmod" (Num t)] /\
     t = eval Date_now h /\
     clock (world h) <= t <= clock (world h') /\
     (Datum.id datum <> "__proto__" ->
      JsObject.get (Datum.id datum) (nodeLookup (this h')) = Some node)).
Proof.
  split; [intros z; apply getLastModifiedForDatum_stamped|].
  intros Hnone node h'. subst node h'. unfold eval, exec.
  rewrite createUrlNodeFromDatum_eq, addUrl_eq. simpl.
  unfold stampOf, stampAt. rewrite Hnone.
  exists (clock (tick (world h))). repeat split.
  - unfold urlNode, children.
    destruct (createImageNodeFromDatum_cases datum) as [-> | [u ->]]; reflexivity.
  - unfold tick; simpl; lia.
  - unfold tick; simpl; lia.
  - intros Hid. now apply get_set_same.
Qed.

(** C7.  The node of a record has an [image:image] child only when one of
    [cover_image], [profile_image], [feature_image] is present and the
    resolver returns a truthy URL for the first that is; the child then
    holds that URL as [image:loc] and its base name as
    [image:caption]. *)
Theorem image_node_synthesis url datum h :
  let node := eval (createUrlNodeFromDatum url datum) h in
  match firstPresentImage datum with
  | None => children "image:image" node = []
  | Some image =>
      match urlFor image with
      | Some imageUrl =>
          if truthy imageUrl
          then children "image:image" node = [imageFragment imageUrl]
          else children "image:image" node = []
      | None => children "image:image" node = []
      end
  end.
Proof.
  cbv zeta. unfold eval. rewrite createUrlNodeFromDatum_eq. cbn [fst].
  unfold urlNode, children, createImageNodeFromDatum, firstPresentImage,
    validateImageUrl.
  destruct datum as [i u p c [[|a ci]|] [[|b pi]|] [[|e fi]|]];
    cbn -[urlFor basename]; try reflexivity;
    match goal with
    | |- context [urlFor ?s] => destruct (urlFor s) as [[|x imageUrl]|]
    end; reflexivity.
Qed.

End Specification.

(* ------------------------------------------------------------------ *)
(** * The properties at work on the sample configuration *)

Section Examples.

#[local] Existing Instance Sample.collaborators.

Import Sample.

(** "add [{id:1, url:/a, updated_at:T1}], add [{id:2, url:/b,
    updated_at:T2}] with [T2 > T1]: render lists [/b] before [/a]" *)
Example scenario_newest_first :
  let h := exec (addAll [("/a", record "1" (Some 100));
                         ("/b", record "2" (Some 200))]) (fresh frozen) in
  children "url" (data (this h))
  = [urlNode "/b" 200 (record "2" (Some 200));
     urlNode "/a" 100 (record "1" (Some 100))].
Proof. reflexivity. Qed.

(** "add [{id:1, url:/a, cover_image:img.jpg}] where the resolver returns
    [https://site/content/images/img.jpg]" *)
Example scenario_cover_image :
  children "image:image"
    (eval (createUrlNodeFromDatum "/a" (recordWithCover "1" (Some 100) "img.jpg"))
          (fresh frozen))
  = [Elem "image:image"
       (Kids [Elem "image:loc" (Text "https://site/content/images/img.jpg");
              Elem "image:caption" (Text "img.jpg")])].
Proof. reflexivity. Qed.

(** "add then remove same id: [getXml()] contains no entry for that
    id" *)
Example scenario_add_remove :
  let d := record "1" (Some 100) in
  let h1 := exec (addUrl "/a" d) (fresh frozen) in
  let h2 := exec getXml h1 in
  let h3 := exec (removeUrl "/a" d) h2 in
  eval getXml h2 <> eval getXml h3 /\
  children "url" (data (this h3)) = [].
Proof. split; [discriminate | reflexivity]. Qed.

(** Array-index keys come first, in numeric order, whatever the order of
    the calls. *)
Example iteration_order :
  JsObject.keys (nodeLookup (this (exec
    (addAll [("/x", record "x" (Some 1)); ("/10", record "10" (Some 2));
             ("/9", record "9" (Some 3)); ("/01", record "01" (Some 4))])
    (fresh frozen))))
  = ["9"; "10"; "x"; "01"].
Proof. reflexivity. Qed.

Lemma render_newest_first_witness :
  let ops := [AddUrl "/a" (record "a" (Some 10));
              AddUrl "/b" (record "b" (Some 30));
              AddUrl "/c" (record "c" (Some 20));
              GetXml;
              AddUrl "/d" (record "d" None)] in
  let h := exec (run ops) (fresh ticking) in
  let g := this h in
  NoDup (map (storedTime g) (JsObject.keys (nodeLookup g))) /\
  Z.of_nat (List.length (nodeLookup g)) <= maxNodes g /\
  map Entry.id (sortedEntries g) = ["d"; "b"; "c"; "a"] /\
  StronglySorted
    (fun a b => storedTime g (Entry.id b) < storedTime g (Entry.id a))
    (sortedEntries g).
Proof.
  intros ops h g.
  assert (Hnd : NoDup (map (storedTime g) (JsObject.keys (nodeLookup g)))).
  { vm_compute. repeat constructor; simpl; intuition discriminate. }
  assert (Hle : Z.of_nat (List.length (nodeLookup g)) <= maxNodes g).
  { vm_compute. discriminate. }
  split; [exact Hnd|]. split; [exact Hle|]. split; [reflexivity|].
  exact (proj2 (proj2 (render_newest_first ops ticking Hnd Hle))).
Defined.

Lemma render_cap_witness :
  0 < maxNodes (small 2) /\
  maxNodes (small 2) < Z.of_nat (List.length (nodeLookup (small 2))) /\
  map Entry.id (sortedEntries (small 2)) = ["b"; "a"] /\
  List.length (children "url" (data (small 2))) = 2%nat.
Proof.
  assert (Hpos : 0 < maxNodes (small 2)) by reflexivity.
  assert (Hlt : maxNodes (small 2) < Z.of_nat (List.length (nodeLookup (small 2))))
    by reflexivity.
  assert (Hurl : Forall (fun p => elem_named "url" (snd p) = true)
                   (nodeLookup (small 2)))
    by (repeat constructor).
  split; [exact Hpos|]. split; [exact Hlt|]. split; [reflexivity|].
  exact (proj2 (proj2 (proj2 (proj2 (render_cap (small 2) frozen Hpos Hlt Hurl))))).
Defined.

Lemma lookups_same_keys_witness :
  let ops := [AddUrl "/a" (record "1" (Some 100));
              AddUrl "/b" (record "2" None);
              GetXml;
              RemoveUrl "/a" (record "1" (Some 100))] in
  let g := this (exec (run ops) (fresh ticking)) in
  In "2" (JsObject.keys (nodeLookup g)) /\
  In "2" (JsObject.keys (nodeTimeLookup g)).
Proof.
  intros ops g.
  assert (Hin : In "2" (JsObject.keys (nodeLookup g))) by (simpl; auto).
  split; [exact Hin|].
  exact (proj1 (lookups_same_keys ops ticking "2") Hin).
Defined.

Lemma lastModified_bounds_stamped_witness :
  let adds := [("/a", record "a" (Some 5)); ("/c", record "c" None)] in
  let g := this (exec (addAll adds) (fresh ticking)) in
  stamped adds "a" = true /\
  JsObject.get "a" (nodeTimeLookup g) = Some 5 /\
  5 <= lastModified g.
Proof.
  intros adds g.
  split; [reflexivity|]. split; [reflexivity|].
  apply (proj1 (lastModified_bounds_stamped adds ticking) "a" 5); reflexivity.
Defined.

(** The claim fails for a record without timestamps when the clock moves
    between the reading that [updateLastModified] takes and the one that
    [updateLookups] takes: the stored time is 1001, [lastModified]
    1000. *)
Lemma lastModified_bound_counterexample :
  let g := this (exec (addAll [("/c", record "c" None)]) (fresh ticking)) in
  ~ (forall id t, JsObject.get id (nodeTimeLookup g) = Some t ->
                  t <= lastModified g).
Proof.
  intros g Hall. specialize (Hall "c" 1001 eq_refl).
  vm_compute in Hall. now apply Hall.
Qed.

Lemma lastModified_of_datum_witness :
  firstNonEmpty (record "c" None) = None /\
  firstNonEmpty (Datum.mk "d" (Some 0) (Some 7) (Some 3) None None None) = Some 7 /\
  getLastModifiedForDatum (Datum.mk "d" (Some 0) (Some 7) (Some 3) None None None)
    (fresh ticking) = (7, fresh ticking) /\
  exists t,
    children "lastmod"
      (eval (createUrlNodeFromDatum "/c" (record "c" None)) (fresh ticking))
    = [Elem "lastmod" (Num t)] /\
    t = eval Date_now (fresh ticking) /\
    clock ticking <= t
      <= clock (world (exec (addUrl "/c" (record "c" None)) (fresh ticking))) /\
    ("c" <> "__proto__" ->
     JsObject.get "c" (nodeLookup (this (exec (addUrl "/c" (record "c" None))
                                           (fresh ticking))))
     = Some (eval (createUrlNodeFromDatum "/c" (record "c" None)) (fresh ticking))).
Proof.
  split; [reflexivity|]. split; [reflexivity|]. split.
  - apply (proj1 (lastModified_of_datum "/d"
                    (Datum.mk "d" (Some 0) (Some 7) (Some 3) None None None)
                    (fresh ticking)) 7).
    reflexivity.
  - apply (proj2 (lastModified_of_datum "/c" (record "c" None) (fresh ticking))).
    reflexivity.
Defined.

Lemma removeUrl_effect_witness :
  let d := record "1" (Some 100) in
  let h := exec (addAll [("/a", d); ("/b", record "2" (Some 50))]) (fresh ticking) in
  let g' := this (exec (removeUrl "/a" d) h) in
  "2" <> "1" /\
  JsObject.get "2" (nodeTimeLookup g') = Some 50 /\
  JsObject.get "1" (nodeTimeLookup g') = None /\
  lastModified g' = 1000.
Proof.
  intros d h g'.
  assert (Hne : "2" <> "1") by discriminate.
  pose proof (removeUrl_effect "/a" d h) as (_ & Hgone & Hkeep & _ & _ & _ & Hnow & _).
  split; [exact Hne|]. split.
  - exact (eq_trans (proj2 (Hkeep "2" Hne)) eq_refl).
  - split; [exact Hgone | exact Hnow].
Defined.

End Examples.

(* ------------------------------------------------------------------ *)
(** * More facts about objects: writing twice, writing then deleting *)

Section ObjectUpdates.

Context {V : Type}.
Implicit Types (o : JsObject.t V) (k : string) (v : V).

Lemma has_replace k k' v o :
  JsObject.has k' (JsObject.replace k v o) = JsObject.has k' o.
Proof. unfold JsObject.has. now rewrite keys_replace. Qed.

Lemma replace_replace k v v' o :
  JsObject.replace k v' (JsObject.replace k v o) = JsObject.replace k v' o.
Proof.
  induction o as [|[k0 v0] o IH]; simpl; [reflexivity|].
  destruct (String.eqb k k0) eqn:E; simpl.
  - now rewrite String.eqb_refl.
  - now rewrite E, IH.
Qed.

Lemma replace_place k n v v' o :
  JsObject.has k o = false ->
  JsObject.replace k v' (JsObject.place k n v o) = JsObject.place k n v' o.
Proof.
  unfold JsObject.has, JsObject.keys.
  induction o as [|[k0 v0] o IH]; simpl.
  - now rewrite String.eqb_refl.
  - destruct (String.eqb k k0) eqn:E; simpl; [discriminate|]. intros Hno.
    destruct (JsObject.array_index k0) as [n0|]; [destruct (n0 <? n)%N|];
      simpl; rewrite ?String.eqb_refl, ?E, ?IH; auto.
Qed.

Lemma replace_app k v v' o :
  JsObject.has k o = false ->
  JsObject.replace k v' (o ++ [(k, v)]) = o ++ [(k, v')].
Proof.
  unfold JsObject.has, JsObject.keys.
  induction o as [|[k0 v0] o IH]; simpl.
  - now rewrite String.eqb_refl.
  - destruct (String.eqb k k0); simpl; [discriminate|].
    intros Hno. now rewrite IH.
Qed.

Lemma has_set k v o :
  k <> "__proto__" -> JsObject.has k (JsObject.set k v o) = true.
Proof.
  intros Hne. rewrite has_get, get_set_same by exact Hne. reflexivity.
Qed.

(** The last assignment to a key is the one that counts, and the key keeps
    the place the first one gave it. *)
Lemma set_set k v v' o :
  JsObject.set k v' (JsObject.set k v o) = JsObject.set k v' o.
Proof.
  destruct (String.eqb k "__proto__") eqn:Ep.
  - unfold JsObject.set. now rewrite Ep.
  - assert (Hne : k <> "__proto__") by now apply String.eqb_neq.
    unfold JsObject.set at 1. rewrite Ep, (has_set k v o Hne).
    unfold JsObject.set. rewrite Ep.
    destruct (JsObject.has k o) eqn:Hh.
    + apply replace_replace.
    + destruct (JsObject.array_index k).
      * now apply replace_place.
      * now apply replace_app.
Qed.

Lemma delete_place k n v o :
  JsObject.has k o = false -> JsObject.delete k (JsObject.place k n v o) = o.
Proof.
  intros Hno. pose proof (delete_absent k o Hno) as Hdel. revert Hno Hdel.
  unfold JsObject.has, JsObject.keys, JsObject.delete.
  induction o as [|[k0 v0] o IH]; simpl.
  - now rewrite String.eqb_refl.
  - destruct (String.eqb k k0) eqn:E; simpl; [discriminate|]. intros Hno Hdel.
    injection Hdel as Hdel.
    destruct (JsObject.array_index k0) as [n0|]; [destruct (n0 <? n)%N|];
      simpl; rewrite ?String.eqb_refl, ?E; simpl; rewrite ?Hdel, ?IH; auto.
Qed.

Lemma delete_app k v o :
  JsObject.has k o = false -> JsObject.delete k (o ++ [(k, v)]) = o.
Proof.
  intros Hno. unfold JsObject.delete. rewrite filter_app. simpl.
  rewrite String.eqb_refl. simpl. rewrite app_nil_r.
  now apply delete_absent.
Qed.

(** Deleting a key that has just been created gives the object back. *)
Lemma delete_set_absent k v o :
  JsObject.has k o = false -> JsObject.delete k (JsObject.set k v o) = o.
Proof.
  intros Hno. unfold JsObject.set. rewrite Hno.
  destruct (String.eqb k "__proto__"); [now apply delete_absent|].
  destruct (JsObject.array_index k).
  - now apply delete_place.
  - now apply delete_app.
Qed.

Lemma delete_delete k o :
  JsObject.delete k (JsObject.delete k o) = JsObject.delete k o.
Proof.
  apply delete_absent. rewrite has_get, get_delete_same. reflexivity.
Qed.

Lemma keys_delete_out k o : ~ In k (JsObject.keys (JsObject.delete k o)).
Proof.
  unfold JsObject.keys, JsObject.delete.
  induction o as [|[k0 v0] o IH]; simpl; [tauto|].
  destruct (String.eqb k k0) eqn:E; simpl; [exact IH|].
  apply String.eqb_neq in E. intros [Heq|Hin]; [congruence | tauto].
Qed.

Lemma keys_delete_incl k k' o :
  In k' (JsObject.keys (JsObject.delete k o)) -> In k' (JsObject.keys o).
Proof.
  unfold JsObject.keys, JsObject.delete.
  induction o as [|[k0 v0] o IH]; simpl; [tauto|].
  destruct (negb (String.eqb k k0)); simpl; tauto.
Qed.

Lemma NoDup_keys_delete k o :
  NoDup (JsObject.keys o) -> NoDup (JsObject.keys (JsObject.delete k o)).
Proof.
  induction o as [|[k0 v0] o IH]; simpl; [auto|].
  intros Hnd. apply NoDup_cons_iff in Hnd as [Hnot Hnd].
  change (JsObject.delete k ((k0, v0) :: o))
    with (if negb (String.eqb k k0) then (k0, v0) :: JsObject.delete k o
          else JsObject.delete k o).
  destruct (negb (String.eqb k k0)); [|auto].
  simpl. constructor; [|auto].
  intros Hin. apply Hnot. now apply keys_delete_incl in Hin.
Qed.

Lemma keys_place_in k k' n v o :
  In k' (JsObject.keys (JsObject.place k n v o)) <->
  k' = k \/ In k' (JsObject.keys o).
Proof.
  induction o as [|[k0 v0] o IH]; simpl; [intuition|].
  destruct (JsObject.array_index k0) as [n0|]; [destruct (n0 <? n)%N|];
    simpl; rewrite ?IH; intuition.
Qed.

Lemma NoDup_keys_place k n v o :
  JsObject.has k o = false ->
  NoDup (JsObject.keys o) -> NoDup (JsObject.keys (JsObject.place k n v o)).
Proof.
  intros Hno Hnd.
  assert (Hout : ~ In k (JsObject.keys o)).
  { intros Hin. unfold JsObject.has in Hno.
    assert (existsb (String.eqb k) (JsObject.keys o) = true)
      by (apply existsb_exists; exists k; split; [exact Hin | apply String.eqb_refl]).
    congruence. }
  clear Hno. induction o as [|[k0 v0] o IH]; simpl in *.
  - repeat constructor. tauto.
  - apply NoDup_cons_iff in Hnd as [Hnot Hnd].
    destruct (JsObject.array_index k0) as [n0|]; [destruct (n0 <? n)%N|]; simpl.
    + constructor.
      * rewrite keys_place_in. intros [Heq|Hin]; [subst; tauto | tauto].
      * apply IH; tauto.
    + constructor; [simpl; tauto|]. now constructor.
    + constructor; [simpl; tauto|]. now constructor.
Qed.

(** Assignments never list a key twice. *)
Lemma NoDup_keys_set k v o :
  NoDup (JsObject.keys o) -> NoDup (JsObject.keys (JsObject.set k v o)).
Proof.
  intros Hnd. unfold JsObject.set.
  destruct (String.eqb k "__proto__"); [exact Hnd|].
  destruct (JsObject.has k o) eqn:Hh.
  - now rewrite keys_replace.
  - destruct (JsObject.array_index k).
    + now apply NoDup_keys_place.
    + unfold JsObject.keys. rewrite map_app. simpl.
      apply NoDup_app; repeat split; auto.
      * repeat constructor. simpl. tauto.
      * intros x Hin [Heq|[]]. subst x.
        unfold JsObject.has in Hh.
        assert (existsb (String.eqb k) (JsObject.keys o) = true)
          by (apply existsb_exists; exists k; split;
              [exact Hin | apply String.eqb_refl]).
        congruence.
Qed.

Lemma get_in k v o : JsObject.get k o = Some v -> In (k, v) o.
Proof.
  induction o as [|[k0 v0] o IH]; simpl; [discriminate|].
  destruct (String.eqb k k0) eqn:E.
  - apply String.eqb_eq in E. intros Hv. injection Hv as <-. subst. now left.
  - intros Hv. right. now apply IH.
Qed.

End ObjectUpdates.

(* ------------------------------------------------------------------ *)
(** * How the calls compose *)

Section Composition.

Context `{Collaborators}.

(** X1.  After [addUrl], the record's id maps to the node just built and
    to the record's time (its first non-empty timestamp field, or else the
    last reading of the clock), and every other id maps to what it mapped
    to before; for an id other than [__proto__]. *)
Theorem addUrl_stores url datum h :
  Datum.id datum <> "__proto__" ->
  let id := Datum.id datum in
  let g := this h in
  let h' := exec (addUrl url datum) h in
  let g' := this h' in
  JsObject.get id (nodeLookup g')
  = Some (eval (createUrlNodeFromDatum url datum) h) /\
  JsObject.get id (nodeTimeLookup g')
  = Some (match firstNonEmpty datum with
          | Some z => z
          | None => clock (world h')
          end) /\
  (forall k, k <> id ->
     JsObject.get k (nodeLookup g') = JsObject.get k (nodeLookup g) /\
     JsObject.get k (nodeTimeLookup g') = JsObject.get k (nodeTimeLookup g)).
Proof.
  intros Hid. cbv zeta. unfold exec, eval.
  rewrite addUrl_eq, createUrlNodeFromDatum_eq. simpl.
  repeat split.
  - now apply get_set_same.
  - rewrite get_set_same by exact Hid. unfold stampOf, stampAt.
    now destruct (firstNonEmpty datum).
  - now apply get_set_other.
  - now apply get_set_other.
Qed.

(** X2.  Adding a record under an id that has just been added replaces
    both entries: the lookups are what the second [addUrl] alone would have
    made them, and the keys and their order are those the first one
    left. *)
Theorem addUrl_overwrites url1 datum1 url2 datum2 h :
  Datum.id datum1 = Datum.id datum2 ->
  let h1 := exec (addUrl url1 datum1) h in
  let h2 := exec (addUrl url2 datum2) h1 in
  let alone := exec (addUrl url2 datum2) (mkHeap (this h) (world h1)) in
  nodeLookup (this h2) = nodeLookup (this alone) /\
  nodeTimeLookup (this h2) = nodeTimeLookup (this alone) /\
  JsObject.keys (nodeLookup (this h2)) = JsObject.keys (nodeLookup (this h1)) /\
  JsObject.keys (nodeTimeLookup (this h2))
  = JsObject.keys (nodeTimeLookup (this h1)).
Proof.
  intros Hid. cbv zeta. unfold exec. rewrite !addUrl_eq. simpl.
  rewrite Hid, !set_set.
  repeat split; apply keys_set_congr; reflexivity.
Qed.

(** X3.  [addUrl] followed by [removeUrl] of the same id, for an id that
    had no entry, leaves both lookups as they were. *)
Theorem addUrl_removeUrl url datum url' datum' h :
  Datum.id datum' = Datum.id datum ->
  JsObject.has (Datum.id datum) (nodeLookup (this h)) = false ->
  JsObject.has (Datum.id datum) (nodeTimeLookup (this h)) = false ->
  let h' := exec (removeUrl url' datum') (exec (addUrl url datum) h) in
  nodeLookup (this h') = nodeLookup (this h) /\
  nodeTimeLookup (this h') = nodeTimeLookup (this h).
Proof.
  intros Hid Hn Ht. cbv zeta. unfold exec.
  rewrite removeUrl_eq, addUrl_eq. simpl. rewrite Hid.
  split; now apply delete_set_absent.
Qed.

(** X4.  A second [removeUrl] of the same id changes neither lookup. *)
Theorem removeUrl_twice url datum url' datum' h :
  Datum.id datum' = Datum.id datum ->
  let h1 := exec (removeUrl url datum) h in
  let h2 := exec (removeUrl url' datum') h1 in
  nodeLookup (this h2) = nodeLookup (this h1) /\
  nodeTimeLookup (this h2) = nodeTimeLookup (this h1).
Proof.
  intros Hid. cbv zeta. unfold exec. rewrite !removeUrl_eq. simpl.
  rewrite Hid. split; apply delete_delete.
Qed.

Lemma unique_in_step op h :
  NoDup (JsObject.keys (nodeLookup (this h))) ->
  NoDup (JsObject.keys (nodeLookup (this (exec (step op) h)))).
Proof.
  intros Hnd. rewrite step_exec.
  destruct op as [url datum|url datum| |]; unfold exec.
  - rewrite addUrl_eq. simpl. now apply NoDup_keys_set.
  - rewrite removeUrl_eq. simpl. now apply NoDup_keys_delete.
  - constructor.
  - rewrite getXml_eq. destruct (truthy _); exact Hnd.
Qed.

Lemma limitedEntries_ids g :
  exists rest,
    JsObject.keys (nodeLookup g) = map Entry.id (limitedEntries g) ++ rest.
Proof.
  destruct (limitedEntries_prefix g) as [rest Hrest].
  exists (map Entry.id rest). rewrite <- map_app, <- Hrest.
  unfold mappedEntries, JsObject.keys. rewrite map_map.
  apply map_ext. now intros [id node].
Qed.

(** X5.  After any sequence of calls on a new generator no id is listed
    twice, in [nodeLookup] or among the entries of the document. *)
Theorem ids_unique ops w :
  let g := this (exec (run ops) (fresh w)) in
  NoDup (JsObject.keys (nodeLookup g)) /\
  NoDup (map Entry.id (sortedEntries g)).
Proof.
  cbv zeta.
  assert (Hnd : NoDup (JsObject.keys
                         (nodeLookup (this (exec (run ops) (fresh w)))))).
  { apply (run_invariant (fun h => NoDup (JsObject.keys (nodeLookup (this h))))).
    - apply unique_in_step.
    - constructor. }
  split; [exact Hnd|].
  destruct (limitedEntries_ids (this (exec (run ops) (fresh w)))) as [rest Hrest].
  rewrite Hrest in Hnd. apply NoDup_app_remove_r in Hnd.
  eapply Permutation_NoDup; [|exact Hnd].
  apply Permutation_map. symmetry. apply sortBy_perm.
Qed.


Lemma limitedEntries_ts g :
  Forall (fun e => Entry.ts e = - storedTime g (Entry.id e)) (limitedEntries g).
Proof.
  destruct (limitedEntries_prefix g) as [rest Hrest].
  pose proof (mappedEntries_ts g) as Hall. rewrite Hrest in Hall.
  now apply Forall_app in Hall.
Qed.

Lemma slice0_length {A} (l : list A) e :
  0 <= e -> Z.of_nat (List.length (slice0 l e)) = Z.min e (Z.of_nat (List.length l)).
Proof.
  intros He. unfold slice0.
  assert ((e <? 0) = false) as -> by (apply Z.ltb_ge; lia).
  rewrite length_firstn. lia.
Qed.

Lemma url_children g :
  Forall (fun p => elem_named "url" (snd p) = true) (nodeLookup g) ->
  children "url" (data g) = nodesToProcess g.
Proof.
  intros Hurl. unfold data, children. simpl. apply filter_all.
  unfold nodesToProcess. apply Forall_map.
  eapply Permutation_Forall; [symmetry; apply sortBy_perm|].
  destruct (limitedEntries_prefix g) as [rest Hrest].
  assert (Hall : Forall (fun e => elem_named "url" (Entry.node e) = true)
                   (mappedEntries g)).
  { unfold mappedEntries. apply Forall_map.
    eapply Forall_impl; [|exact Hurl]. now intros [id node]. }
  rewrite Hrest in Hall. now apply Forall_app in Hall.
Qed.

(** X6.  After any sequence of calls on a new generator, the document
    [getXml] returns is the serialization of [data], whose [url] children
    number as many as there are records, or 50000 if there are more. *)
Theorem url_count ops w :
  let h := exec (run ops) (fresh w) in
  let g := this h in
  eval getXml h
  = transformReadyToAbsolute (String.append getDeclarations (xml (data g))) /\
  Z.of_nat (List.length (children "url" (data g)))
  = Z.min 50000 (Z.of_nat (List.length (nodeLookup g))).
Proof.
  cbv zeta. split; [apply getXml_is_document|].
  rewrite url_children by apply nodes_are_urls.
  unfold nodesToProcess, sortedEntries.
  rewrite length_map, sortBy_length.
  unfold limitedEntries. rewrite (maxNodes_constant ops w).
  change (truthy 50000) with true. cbv iota.
  rewrite slice0_length by lia.
  unfold mappedEntries. now rewrite length_map.
Qed.

(** X7.  With [maxNodes] set to [0] nothing is cut: the nodes of the
    document are the nodes of all the records. *)
Theorem no_cap_when_zero g :
  maxNodes g = 0 ->
  Permutation (nodesToProcess g) (JsObject.values (nodeLookup g)).
Proof.
  intros Hz. unfold nodesToProcess, sortedEntries, limitedEntries.
  rewrite Hz. change (truthy 0) with false. cbv iota.
  rewrite <- mappedEntries_nodes. apply Permutation_map, sortBy_perm.
Qed.

(** X8.  After any sequence of calls on a new generator, [getXml] returns
    what [generateXmlFromNodes] would compute at that moment: the cache is
    never used when it is out of date. *)
Theorem getXml_never_stale ops w :
  let h := exec (run ops) (fresh w) in
  eval getXml h = eval generateXmlFromNodes h.
Proof. apply getXml_is_document. Qed.

Lemma sortedEntries_nonincreasing g :
  StronglySorted
    (fun a b => storedTime g (Entry.id b) <= storedTime g (Entry.id a))
    (sortedEntries g).
Proof.
  unfold sortedEntries.
  apply StronglySorted_on
    with (P := fun e => Entry.ts e = - storedTime g (Entry.id e))
         (R := fun a b => Entry.ts a <= Entry.ts b).
  - intros a b Ha Hb. lia.
  - eapply Permutation_Forall; [|apply limitedEntries_ts].
    symmetry. apply sortBy_perm.
  - apply sortBy_sorted.
Qed.

(** X9.  After any sequence of calls on a new generator, the document
    [getXml] returns lists the nodes of entries that are in descending
    order of stored time, equal times allowed, whatever the times and
    however many the records. *)
Theorem render_descending ops w :
  let h := exec (run ops) (fresh w) in
  let g := this h in
  eval getXml h
  = transformReadyToAbsolute
      (String.append getDeclarations
         (xml (Elem "urlset"
                 (Kids (XMLNS_DECLS :: map Entry.node (sortedEntries g)))))) /\
  StronglySorted
    (fun a b => storedTime g (Entry.id b) <= storedTime g (Entry.id a))
    (sortedEntries g).
Proof.
  cbv zeta. split; [apply getXml_is_document | apply sortedEntries_nonincreasing].
Qed.

Lemma sortedEntries_ties g t :
  filter (fun e => storedTime g (Entry.id e) =? t) (sortedEntries g)
  = filter (fun e => storedTime g (Entry.id e) =? t) (limitedEntries g).
Proof.
  assert (Hext : forall l,
            Forall (fun e => Entry.ts e = - storedTime g (Entry.id e)) l ->
            filter (fun e => storedTime g (Entry.id e) =? t) l
            = filter (fun e => Entry.ts e =? - t) l).
  { induction 1 as [|e l He Hl IH]; simpl; [reflexivity|].
    rewrite IH, He.
    destruct (storedTime g (Entry.id e) =? t) eqn:E1,
             (- storedTime g (Entry.id e) =? - t) eqn:E2; try reflexivity.
    - apply Z.eqb_eq in E1. apply Z.eqb_neq in E2. lia.
    - apply Z.eqb_neq in E1. apply Z.eqb_eq in E2. lia. }
  rewrite !Hext.
  - apply sortBy_stable.
  - apply limitedEntries_ts.
  - eapply Permutation_Forall; [|apply limitedEntries_ts].
    symmetry. apply sortBy_perm.
Qed.

(** X10.  After any sequence of calls on a new generator, the records of
    one and the same stored time [t] appear among the entries of the
    document in the order in which [nodeLookup] lists them. *)
Theorem render_ties_in_lookup_order ops w t :
  let g := this (exec (run ops) (fresh w)) in
  filter (fun e => storedTime g (Entry.id e) =? t) (sortedEntries g)
  = filter (fun e => storedTime g (Entry.id e) =? t) (limitedEntries g).
Proof. apply sortedEntries_ties. Qed.

(** Two strictly ascending lists with the same elements are the same
    list. *)
Lemma sorted_perm_unique {A} (key : A -> Z) (l l' : list A) :
  Permutation l l' ->
  StronglySorted (fun a b => key a < key b) l ->
  StronglySorted (fun a b => key a < key b) l' ->
  l = l'.
Proof.
  revert l'. induction l as [|x xs IH]; intros l' Hperm Hl Hl'.
  - apply Permutation_nil in Hperm. now subst.
  - destruct l' as [|y ys].
    { symmetry in Hperm. now apply Permutation_nil in Hperm. }
    apply StronglySorted_inv in Hl as [Hxs Hx].
    apply StronglySorted_inv in Hl' as [Hys Hy].
    rewrite Forall_forall in Hx, Hy.
    assert (Hxy : x = y).
    { assert (Hin1 : In x (y :: ys))
        by (eapply Permutation_in; [exact Hperm | now left]).
      assert (Hin2 : In y (x :: xs))
        by (eapply Permutation_in; [symmetry; exact Hperm | now left]).
      destruct Hin1 as [->|Hin1]; [reflexivity|].
      destruct Hin2 as [->|Hin2]; [reflexivity|].
      specialize (Hx y Hin2). specialize (Hy x Hin1). lia. }
    subst y. f_equal. apply IH; auto.
    now apply Permutation_cons_inv in Hperm.
Qed.

Lemma sortedEntries_order_independent g1 g2 :
  Permutation (nodeLookup g1) (nodeLookup g2) ->
  (forall id, In id (JsObject.keys (nodeLookup g1)) ->
              storedTime g1 id = storedTime g2 id) ->
  NoDup (map (storedTime g1) (JsObject.keys (nodeLookup g1))) ->
  Z.of_nat (List.length (nodeLookup g1)) <= maxNodes g1 ->
  Z.of_nat (List.length (nodeLookup g2)) <= maxNodes g2 ->
  sortedEntries g1 = sortedEntries g2.
Proof.
  intros Hperm Htimes Hnd Hle1 Hle2.
  assert (Hmapped : Permutation (mappedEntries g1) (mappedEntries g2)).
  { unfold mappedEntries.
    rewrite (map_ext_in (toEntry g1) (toEntry g2)).
    - now apply Permutation_map.
    - intros [id node] Hin. unfold toEntry.
      change (orNumber (JsObject.get id (nodeTimeLookup g1)) 0)
        with (storedTime g1 id).
      change (orNumber (JsObject.get id (nodeTimeLookup g2)) 0)
        with (storedTime g2 id).
      rewrite Htimes; [reflexivity|].
      unfold JsObject.keys. now apply (in_map fst) in Hin. }
  assert (Hnd1 : NoDup (map Entry.ts (mappedEntries g1))).
  { rewrite mappedEntries_times.
    apply Finite.Injective_map_NoDup; [|exact Hnd]. intros a b Hab. lia. }
  assert (Hnd2 : NoDup (map Entry.ts (mappedEntries g2))).
  { eapply Permutation_NoDup; [|exact Hnd1]. now apply Permutation_map. }
  unfold sortedEntries.
  rewrite (limitedEntries_all g1 Hle1), (limitedEntries_all g2 Hle2).
  apply (sorted_perm_unique Entry.ts).
  - rewrite !sortBy_perm. exact Hmapped.
  - now apply sortBy_strict.
  - now apply sortBy_strict.
Qed.

(** X11.  Two generators that hold the same records with the same stored
    times, pairwise different and at most [maxNodes] of them, return the
    same document from [getXml], in whatever order the calls that led to
    them listed the records in [nodeLookup]. *)
Theorem render_order_independent ops1 w1 ops2 w2 :
  let h1 := exec (run ops1) (fresh w1) in
  let h2 := exec (run ops2) (fresh w2) in
  let g1 := this h1 in
  let g2 := this h2 in
  Permutation (nodeLookup g1) (nodeLookup g2) ->
  (forall id, In id (JsObject.keys (nodeLookup g1)) ->
              storedTime g1 id = storedTime g2 id) ->
  NoDup (map (storedTime g1) (JsObject.keys (nodeLookup g1))) ->
  Z.of_nat (List.length (nodeLookup g1)) <= maxNodes g1 ->
  eval getXml h1 = eval getXml h2.
Proof.
  intros h1 h2 g1 g2 Hperm Htimes Hnd Hle1.
  assert (Hle2 : Z.of_nat (List.length (nodeLookup g2)) <= maxNodes g2).
  { unfold g1, g2, h1, h2 in *.
    rewrite maxNodes_constant in *.
    now rewrite <- (Permutation_length Hperm). }
  pose proof (sortedEntries_order_independent g1 g2 Hperm Htimes Hnd Hle1 Hle2)
    as Hsorted.
  unfold h1, h2. rewrite !getXml_is_document.
  fold h1 h2 g1 g2. unfold document, data, nodesToProcess. now rewrite Hsorted.
Qed.


Lemma addAll_stamped_max adds :
  Forall (fun a => truthy (firstNonEmpty (snd a)) = true) adds ->
  forall h,
    lastModified (this (exec (addAll adds) h))
    = fold_left Z.max
        (map (fun a => match firstNonEmpty (snd a) with
                       | Some z => z
                       | None => 0
                       end) adds)
        (lastModified (this h)) /\
    world (exec (addAll adds) h) = world h.
Proof.
  induction 1 as [|[url datum] adds Hs Hall IH]; intros h; [now split|].
  rewrite exec_addAll_cons.
  destruct (IH (exec (addUrl url datum) h)) as [Hlm Hw].
  rewrite Hlm, Hw. unfold exec. rewrite addUrl_eq. simpl in *.
  unfold stampOf, stampAt.
  destruct (firstNonEmpty datum); [now split | discriminate].
Qed.

(** X12.  When every record added to a new generator has a non-empty
    timestamp field, [lastModified] is the greatest of [0] and the times of
    all the records added, those replaced since included, and the clock is
    never read. *)
Theorem lastModified_is_max adds w :
  Forall (fun a => truthy (firstNonEmpty (snd a)) = true) adds ->
  let h := exec (addAll adds) (fresh w) in
  lastModified (this h)
  = fold_left Z.max
      (map (fun a => match firstNonEmpty (snd a) with
                     | Some z => z
                     | None => 0
                     end) adds) 0 /\
  world h = w.
Proof.
  intros Hall. exact (addAll_stamped_max adds Hall (fresh w)).
Qed.

Lemma urlNode_shape url t datum :
  children "loc" (urlNode url t datum) = [Elem "loc" (Text url)] /\
  children "lastmod" (urlNode url t datum) = [Elem "lastmod" (Num t)] /\
  (List.length (children "image:image" (urlNode url t datum)) <= 1)%nat.
Proof.
  unfold urlNode, children.
  destruct (createImageNodeFromDatum_cases datum) as [-> | [u ->]];
    simpl; auto.
Qed.

Lemma stamp_order datum w :
  stampOf datum w <= stampOf datum (stampAt datum (stampAt datum w)).
Proof.
  unfold stampOf, stampAt. destruct (firstNonEmpty datum); [lia|].
  unfold tick; simpl. lia.
Qed.

(** [shaped h]: every stored node has one [loc], one [lastmod] and at most
    one [image:image], and its [lastmod] is not after the time stored for
    its id. *)
Lemma shaped_in_step op h :
  (forall id node,
     JsObject.get id (nodeLookup (this h)) = Some node ->
     exists url l t,
       children "loc" node = [Elem "loc" (Text url)] /\
       children "lastmod" node = [Elem "lastmod" (Num l)] /\
       (List.length (children "image:image" node) <= 1)%nat /\
       JsObject.get id (nodeTimeLookup (this h)) = Some t /\ l <= t) ->
  forall id node,
    JsObject.get id (nodeLookup (this (exec (step op) h))) = Some node ->
    exists url l t,
      children "loc" node = [Elem "loc" (Text url)] /\
      children "lastmod" node = [Elem "lastmod" (Num l)] /\
      (List.length (children "image:image" node) <= 1)%nat /\
      JsObject.get id (nodeTimeLookup (this (exec (step op) h))) = Some t /\
      l <= t.
Proof.
  intros Hinv id node. rewrite step_exec.
  destruct op as [url datum|url datum| |]; unfold exec.
  - rewrite addUrl_eq. simpl.
    destruct (String.eqb (Datum.id datum) "__proto__") eqn:Ep.
    + apply String.eqb_eq in Ep. rewrite Ep, !get_set_proto. apply Hinv.
    + apply String.eqb_neq in Ep.
      destruct (String.eqb id (Datum.id datum)) eqn:Ei.
      * apply String.eqb_eq in Ei. subst id.
        rewrite !get_set_same by exact Ep. intros Hn. injection Hn as <-.
        destruct (urlNode_shape url (stampOf datum (world h)) datum)
          as (Hloc & Hmod & Himg).
        exists url, (stampOf datum (world h)),
          (stampOf datum (stampAt datum (stampAt datum (world h)))).
        repeat split; auto. apply stamp_order.
      * apply String.eqb_neq in Ei.
        rewrite !get_set_other by exact Ei. apply Hinv.
  - rewrite removeUrl_eq. simpl.
    destruct (String.eqb id (Datum.id datum)) eqn:Ei.
    + apply String.eqb_eq in Ei. subst id. now rewrite get_delete_same.
    + apply String.eqb_neq in Ei.
      rewrite !get_delete_other by exact Ei. apply Hinv.
  - rewrite reset_eq. simpl. discriminate.
  - rewrite getXml_eq. destruct (truthy _); apply Hinv.
Qed.

(** X13.  After any sequence of calls on a new generator, every stored
    node has exactly one [loc], exactly one [lastmod] and at most one
    [image:image] child, its id has a stored time, and the [lastmod] is not
    after that time. *)
Theorem nodes_shaped ops w id node :
  let g := this (exec (run ops) (fresh w)) in
  JsObject.get id (nodeLookup g) = Some node ->
  exists url l t,
    children "loc" node = [Elem "loc" (Text url)] /\
    children "lastmod" node = [Elem "lastmod" (Num l)] /\
    (List.length (children "image:image" node) <= 1)%nat /\
    JsObject.get id (nodeTimeLookup g) = Some t /\ l <= t.
Proof.
  cbv zeta. revert id node.
  apply (run_invariant (fun h => forall id node,
     JsObject.get id (nodeLookup (this h)) = Some node ->
     exists url l t,
       children "loc" node = [Elem "loc" (Text url)] /\
       children "lastmod" node = [Elem "lastmod" (Num l)] /\
       (List.length (children "image:image" node) <= 1)%nat /\
       JsObject.get id (nodeTimeLookup (this h)) = Some t /\ l <= t)).
  - apply shaped_in_step.
  - discriminate.
Qed.

Lemma sortedEntries_ids g id :
  In id (map Entry.id (sortedEntries g)) -> In id (JsObject.keys (nodeLookup g)).
Proof.
  intros Hin. destruct (limitedEntries_ids g) as [rest ->].
  apply in_or_app. left.
  eapply Permutation_in; [|exact Hin].
  apply Permutation_map, sortBy_perm.
Qed.

Lemma addUrl_stores_node url datum h :
  Datum.id datum <> "__proto__" ->
  JsObject.get (Datum.id datum) (nodeLookup (this (exec (addUrl url datum) h)))
  = Some (eval (createUrlNodeFromDatum url datum) h).
Proof.
  intros Hid. unfold exec, eval.
  rewrite addUrl_eq, createUrlNodeFromDatum_eq. simpl.
  now apply get_set_same.
Qed.

(** X14.  After [removeUrl] the document has no entry for the record's
    id. *)
Theorem removeUrl_unlists url datum h :
  let g' := this (exec (removeUrl url datum) h) in
  ~ In (Datum.id datum) (map Entry.id (sortedEntries g')).
Proof.
  cbv zeta. intros Hin. apply sortedEntries_ids in Hin.
  unfold exec in Hin. rewrite removeUrl_eq in Hin. simpl in Hin.
  now apply keys_delete_out in Hin.
Qed.

(** X15.  After [addUrl], when the records are at most [maxNodes], the
    node just built is one of the nodes of the document; for an id other
    than [__proto__]. *)
Theorem addUrl_lists url datum h :
  Datum.id datum <> "__proto__" ->
  let g' := this (exec (addUrl url datum) h) in
  Z.of_nat (List.length (nodeLookup g')) <= maxNodes g' ->
  In (eval (createUrlNodeFromDatum url datum) h) (nodesToProcess g').
Proof.
  intros Hid g' Hle.
  assert (Hget : JsObject.get (Datum.id datum) (nodeLookup g')
                 = Some (eval (createUrlNodeFromDatum url datum) h))
    by apply (addUrl_stores_node url datum h Hid).
  apply get_in in Hget.
  unfold nodesToProcess, sortedEntries. rewrite (limitedEntries_all g' Hle).
  apply (in_map (toEntry g')) in Hget. apply (in_map Entry.node) in Hget.
  eapply Permutation_in; [|exact Hget].
  apply Permutation_map. symmetry. apply sortBy_perm.
Qed.

(** X16.  [addUrl] of a record whose id is [__proto__] adds no entry to
    either lookup; the cache is cleared all the same. *)
Theorem addUrl_proto url datum h :
  Datum.id datum = "__proto__" ->
  let g' := this (exec (addUrl url datum) h) in
  nodeLookup g' = nodeLookup (this h) /\
  nodeTimeLookup g' = nodeTimeLookup (this h) /\
  siteMapContent g' = None.
Proof.
  intros Hid. cbv zeta. unfold exec. rewrite addUrl_eq. simpl.
  rewrite Hid. repeat split.
Qed.

(** X17.  Right after [reset], [getXml] returns the serialization of a
    [urlset] that holds the namespace block and no [url]. *)
Theorem reset_getXml h :
  eval getXml (exec reset h)
  = transformReadyToAbsolute
      (String.append getDeclarations
         (xml (Elem "urlset" (Kids [XMLNS_DECLS])))).
Proof.
  unfold exec, eval. rewrite reset_eq, getXml_eq. simpl.
  unfold document, data, nodesToProcess, sortedEntries, limitedEntries,
    mappedEntries. simpl.
  destruct (truthy (maxNodes (this h))); [|reflexivity].
  unfold slice0. now rewrite firstn_nil.
Qed.

End Composition.

(* ------------------------------------------------------------------ *)
(** * The composition properties on the sample configuration *)

Section CompositionExamples.

#[local] Existing Instance Sample.collaborators.

Import Sample.

Lemma addUrl_stores_witness :
  let d := record "c" None in
  let h' := exec (addUrl "/c" d) (fresh ticking) in
  "c" <> "__proto__" /\
  JsObject.get "c" (nodeTimeLookup (this h')) = Some 1001 /\
  JsObject.get "c" (nodeLookup (this h'))
  = Some (Elem "url" (Kids [Elem "loc" (Text "/c"); Elem "lastmod" (Num 1000)])).
Proof.
  intros d h'.
  assert (Hid : Datum.id d <> "__proto__") by discriminate.
  destruct (addUrl_stores "/c" d (fresh ticking) Hid) as (Hnode & Htime & _).
  split; [exact Hid|]. split; [exact Htime | exact Hnode].
Defined.

Lemma addUrl_overwrites_witness :
  let d1 := record "a" (Some 5) in
  let d2 := recordWithCover "a" (Some 9) "img.jpg" in
  let h := exec (addAll [("/x", record "x" (Some 1))]) (fresh frozen) in
  let h1 := exec (addUrl "/a" d1) h in
  let h2 := exec (addUrl "/a2" d2) h1 in
  Datum.id d1 = Datum.id d2 /\
  JsObject.keys (nodeLookup (this h2)) = JsObject.keys (nodeLookup (this h1)) /\
  JsObject.keys (nodeLookup (this h1)) = ["x"; "a"] /\
  JsObject.get "a" (nodeTimeLookup (this h2)) = Some 9.
Proof.
  intros d1 d2 h h1 h2.
  assert (Hid : Datum.id d1 = Datum.id d2) by reflexivity.
  destruct (addUrl_overwrites "/a" d1 "/a2" d2 h Hid) as (_ & _ & Hk & _).
  split; [exact Hid|]. split; [exact Hk|]. split; reflexivity.
Defined.

Lemma addUrl_removeUrl_witness :
  let d := record "b" (Some 7) in
  let h := exec (addAll [("/a", record "a" (Some 5))]) (fresh frozen) in
  let h' := exec (removeUrl "/b" d) (exec (addUrl "/b" d) h) in
  JsObject.has "b" (nodeLookup (this h)) = false /\
  JsObject.has "b" (nodeTimeLookup (this h)) = false /\
  nodeLookup (this h') = nodeLookup (this h) /\
  nodeTimeLookup (this h') = nodeTimeLookup (this h).
Proof.
  intros d h h'.
  assert (Hn : JsObject.has (Datum.id d) (nodeLookup (this h)) = false)
    by reflexivity.
  assert (Ht : JsObject.has (Datum.id d) (nodeTimeLookup (this h)) = false)
    by reflexivity.
  split; [exact Hn|]. split; [exact Ht|].
  exact (addUrl_removeUrl "/b" d "/b" d h eq_refl Hn Ht).
Defined.

Lemma removeUrl_twice_witness :
  let d := record "a" (Some 5) in
  let h := exec (addAll [("/a", d); ("/b", record "b" (Some 7))]) (fresh ticking) in
  let h1 := exec (removeUrl "/a" d) h in
  let h2 := exec (removeUrl "/a" d) h1 in
  Datum.id d = Datum.id d /\
  nodeLookup (this h2) = nodeLookup (this h1) /\
  nodeTimeLookup (this h2) = nodeTimeLookup (this h1).
Proof.
  intros d h h1 h2. split; [reflexivity|].
  exact (removeUrl_twice "/a" d "/a" d h eq_refl).
Defined.

Lemma no_cap_when_zero_witness :
  maxNodes (small 0) = 0 /\
  Permutation (nodesToProcess (small 0)) (JsObject.values (nodeLookup (small 0))).
Proof.
  assert (Hz : maxNodes (small 0) = 0) by reflexivity.
  split; [exact Hz | exact (no_cap_when_zero (small 0) Hz)].
Defined.

Lemma render_order_independent_witness :
  let a := AddUrl "/a" (record "a" (Some 10)) in
  let b := AddUrl "/b" (record "b" (Some 30)) in
  let c := AddUrl "/c" (record "c" (Some 20)) in
  let h1 := exec (run [a; b; c]) (fresh frozen) in
  let h2 := exec (run [c; a; GetXml; b]) (fresh ticking) in
  JsObject.keys (nodeLookup (this h1)) = ["a"; "b"; "c"] /\
  JsObject.keys (nodeLookup (this h2)) = ["c"; "a"; "b"] /\
  eval getXml h1 = eval getXml h2.
Proof.
  intros a b c h1 h2.
  assert (Hperm : Permutation (nodeLookup (this h1)) (nodeLookup (this h2))).
  { vm_compute.
    match goal with
    | |- Permutation [?x; ?y; ?z] _ => apply (Permutation_app_comm [x; y] [z])
    end. }
  assert (Htimes : forall id, In id (JsObject.keys (nodeLookup (this h1))) ->
                              storedTime (this h1) id = storedTime (this h2) id).
  { intros id [<-|[<-|[<-|[]]]]; reflexivity. }
  assert (Hnd : NoDup (map (storedTime (this h1))
                         (JsObject.keys (nodeLookup (this h1))))).
  { vm_compute. repeat constructor; simpl; intuition discriminate. }
  assert (Hle : Z.of_nat (List.length (nodeLookup (this h1)))
                <= maxNodes (this h1))
    by (vm_compute; discriminate).
  split; [reflexivity|]. split; [reflexivity|].
  exact (render_order_independent [a; b; c] frozen [c; a; GetXml; b] ticking
           Hperm Htimes Hnd Hle).
Defined.

Lemma lastModified_is_max_witness :
  let adds := [("/a", record "a" (Some 5)); ("/b", record "b" (Some 30));
               ("/a", record "a" (Some 7))] in
  Forall (fun a => truthy (firstNonEmpty (snd a)) = true) adds /\
  lastModified (this (exec (addAll adds) (fresh ticking))) = 30.
Proof.
  intros adds.
  assert (Hall : Forall (fun a => truthy (firstNonEmpty (snd a)) = true) adds)
    by (repeat constructor).
  split; [exact Hall|].
  exact (proj1 (lastModified_is_max adds ticking Hall)).
Defined.

Lemma nodes_shaped_witness :
  let ops := [AddUrl "/c" (recordWithCover "c" None "img.jpg"); GetXml] in
  let g := this (exec (run ops) (fresh ticking)) in
  exists node url l t,
    JsObject.get "c" (nodeLookup g) = Some node /\
    children "loc" node = [Elem "loc" (Text url)] /\
    children "lastmod" node = [Elem "lastmod" (Num l)] /\
    (List.length (children "image:image" node) <= 1)%nat /\
    JsObject.get "c" (nodeTimeLookup g) = Some t /\ l <= t.
Proof.
  intros ops g.
  destruct (JsObject.get "c" (nodeLookup g)) as [node|] eqn:Hget;
    [|discriminate].
  destruct (nodes_shaped ops ticking "c" node Hget) as (url & l & t & Hshape).
  exists node, url, l, t. split; [reflexivity | exact Hshape].
Defined.

Lemma addUrl_lists_witness :
  let d := recordWithCover "b" (Some 7) "img.jpg" in
  let h := exec (addAll [("/a", record "a" (Some 5))]) (fresh frozen) in
  let g' := this (exec (addUrl "/b" d) h) in
  Datum.id d <> "__proto__" /\
  Z.of_nat (List.length (nodeLookup g')) <= maxNodes g' /\
  In (eval (createUrlNodeFromDatum "/b" d) h) (nodesToProcess g').
Proof.
  intros d h g'.
  assert (Hid : Datum.id d <> "__proto__") by discriminate.
  assert (Hle : Z.of_nat (List.length (nodeLookup g')) <= maxNodes g')
    by (vm_compute; discriminate).
  split; [exact Hid|]. split; [exact Hle|].
  exact (addUrl_lists "/b" d h Hid Hle).
Defined.

Lemma addUrl_proto_witness :
  let d := record "__proto__" (Some 7) in
  let h := exec (addAll [("/a", record "a" (Some 5))]) (fresh frozen) in
  let g' := this (exec (addUrl "/p" d) h) in
  Datum.id d = "__proto__" /\
  JsObject.keys (nodeLookup g') = ["a"] /\
  nodeTimeLookup g' = nodeTimeLookup (this h) /\
  lastModified g' = 7.
Proof.
  intros d h g'.
  assert (Hid : Datum.id d = "__proto__") by reflexivity.
  destruct (addUrl_proto "/p" d h Hid) as (_ & Ht & _).
  split; [exact Hid|]. split; [reflexivity|]. split; [exact Ht | reflexivity].
Defined.

End CompositionExamples.
